(** * ragsql: routing, retrieval and SQL sanitisation of the RAG + MySQL pipeline

    A shallow embedding of [src/main.py] and of the sanitiser at the end of
    [generate_sql] in [src/gemini_generator.py], with the properties the
    specification states about them.

    Python strings are sequences of Unicode code points; they are modelled
    as lists of code points ([N]), so that [len], slicing and character
    classes count code points and not bytes. *)

From Stdlib Require Import List String Ascii NArith Bool Arith Lia.
From Stdlib Require DecimalNat DecimalString.
Import ListNotations.

Set Implicit Arguments.

(* ================================================================= *)
(** ** Python text *)

Module Text.

Definition pystr := list N.

(** A string literal of the source, as code points (ASCII literals only). *)
Definition py (s : string) : pystr := map N_of_ascii (list_ascii_of_string s).
Arguments py s%_string.

Definition NL : N := 10.        (* "\n" *)
Definition SEMI : N := 59.      (* ";" *)

(** [str.lower]: "A".."Z" are folded and every other code point is kept.
    Python also folds letters outside ASCII, to code points outside ASCII
    except for U+0130 (which gives "i" followed by U+0307) and U+212A
    (which gives "k").  Every test of the program on a lower-cased text
    compares it with an ASCII literal, none of these literals contains "k"
    or ends in "i", and so each test has the same outcome on this [lower]
    as on Python's. *)
Definition lower_char (c : N) : N :=
  if (65 <=? c)%N && (c <=? 90)%N then (c + 32)%N else c.

Definition lower (s : pystr) : pystr := map lower_char s.

(** [s.startswith(p)] *)
Fixpoint startswith (p s : pystr) : bool :=
  match p, s with
  | [], _ => true
  | _ :: _, [] => false
  | a :: p', b :: s' => (a =? b)%N && startswith p' s'
  end.

(** [sub in s] *)
Fixpoint contains (sub s : pystr) : bool :=
  startswith sub s ||
  match s with
  | [] => false
  | _ :: s' => contains sub s'
  end.

(** [any(k in q for k in ks)] *)
Definition any_in (ks : list pystr) (q : pystr) : bool :=
  existsb (fun k => contains k q) ks.

(** [str.isspace] for one code point: the whitespace that [str.strip]
    removes. *)
Definition is_space (c : N) : bool :=
  ((9 <=? c) && (c <=? 13) || (28 <=? c) && (c <=? 32) ||
   (c =? 133) || (c =? 160) || (c =? 5760) ||
   (8192 <=? c) && (c <=? 8202) || (c =? 8232) || (c =? 8233) ||
   (c =? 8239) || (c =? 8287) || (c =? 12288))%N.

Fixpoint lstrip (s : pystr) : pystr :=
  match s with
  | [] => []
  | c :: s' => if is_space c then lstrip s' else s
  end.

Definition rstrip (s : pystr) : pystr := rev (lstrip (rev s)).

(** [s.strip()] *)
Definition strip (s : pystr) : pystr := rstrip (lstrip s).

(** The part of [s] before the first occurrence of [c], and the part after
    it when [c] occurs. *)
Fixpoint before (c : N) (s : pystr) : pystr :=
  match s with
  | [] => []
  | x :: s' => if (x =? c)%N then [] else x :: before c s'
  end.

Fixpoint after (c : N) (s : pystr) : option pystr :=
  match s with
  | [] => None
  | x :: s' => if (x =? c)%N then Some s' else after c s'
  end.

(** Line boundaries of [str.splitlines]. *)
Definition is_linebreak (c : N) : bool :=
  ((c =? 10) || (c =? 13) || (c =? 11) || (c =? 12) || (c =? 28) ||
   (c =? 29) || (c =? 30) || (c =? 133) || (c =? 8232) || (c =? 8233))%N.

(** [s.splitlines()]: [cur] is the current line, reversed.  "\r\n" is one
    boundary; a final line break opens no further line. *)
Fixpoint splitlines_from (cur : pystr) (s : pystr) : list pystr :=
  match s with
  | [] => match cur with [] => [] | _ => [rev cur] end
  | c :: s' =>
      if is_linebreak c then
        match c, s' with
        | 13%N, 10%N :: s'' => rev cur :: splitlines_from [] s''
        | _, _ => rev cur :: splitlines_from [] s'
        end
      else splitlines_from (c :: cur) s'
  end.

Definition splitlines (s : pystr) : list pystr := splitlines_from [] s.

(** ["\n".join(lines)] *)
Fixpoint join_nl (lines : list pystr) : pystr :=
  match lines with
  | [] => []
  | [l] => l
  | l :: ls => l ++ NL :: join_nl ls
  end.

(** No whitespace at the front. *)
Definition clean_head (s : pystr) : bool :=
  match s with
  | [] => true
  | c :: _ => negb (is_space c)
  end.

(** No whitespace at either end. *)
Definition stripped (s : pystr) : bool := clean_head s && clean_head (rev s).

End Text.
Import Text.

(* ================================================================= *)
(** ** Intent classifier and resolver ([main.py]) *)

Inductive QueryType := sql_query | retrieval.

(** The dictionary returned by [parse_intent]: [{"action": "sql", "sql": ..,
    "explain": ..}] or [{"action": None}]. *)
Inductive Intent :=
| CannedSql (sql explain : pystr)
| NoIntent.

Definition SQL_NAMES := py "SELECT id, name FROM people_info;".
Definition SQL_COMPANIES :=
  py "SELECT DISTINCT company FROM people_info WHERE company IS NOT NULL AND company != '';".
Definition SQL_ROLES :=
  py "SELECT DISTINCT role FROM people_info WHERE role IS NOT NULL AND role != '';".
Definition SQL_AGES := py "SELECT id, name, age FROM people_info;".
Definition SQL_COUNT := py "SELECT COUNT(*) FROM people_info;".
Definition SQL_SUM := py "SELECT SUM(age) FROM people_info;".
Definition SQL_AVG := py "SELECT AVG(age) FROM people_info;".
Definition SQL_MAX := py "SELECT MAX(age) FROM people_info;".
Definition SQL_MIN := py "SELECT MIN(age) FROM people_info;".

(** [re.search(r"how many|total number|number of", q)]: an alternation of
    literals matches somewhere iff one of them is a substring. *)
Definition count_regex (q : pystr) : bool :=
  any_in [py "how many"; py "total number"; py "number of"] q.

Definition parse_intent (query : pystr) : Intent :=
  let q := lower query in
  if any_in [py "name"; py "names"; py "list names";
             py "just tell me the names"; py "tell me the names";
             py "all the people"] q
  then CannedSql SQL_NAMES (py "list of names")
  else if any_in [py "company"; py "companies"; py "list companies";
                  py "which companies"] q
  then CannedSql SQL_COMPANIES (py "distinct companies")
  else if any_in [py "role"; py "roles"; py "list roles"; py "what roles"] q
  then CannedSql SQL_ROLES (py "distinct roles")
  else if any_in [py "age"; py "ages"; py "list ages"; py "show ages"] q
          && any_in [py "list"; py "show"; py "names"; py "just"] q
  then CannedSql SQL_AGES (py "names and ages")
  else if contains (py "count") q || count_regex q
  then CannedSql SQL_COUNT (py "count")
  else if any_in [py "sum of age"; py "sum of ages"; py "total age";
                  py "total of ages"; py "sum ages"] q
  then CannedSql SQL_SUM (py "sum of ages")
  else if any_in [py "average age"; py "avg age"; py "average of ages";
                  py "mean age"] q
  then CannedSql SQL_AVG (py "average age")
  else if any_in [py "max age"; py "maximum age"; py "oldest"] q
  then CannedSql SQL_MAX (py "maximum age")
  else if any_in [py "min age"; py "minimum age"; py "youngest"] q
  then CannedSql SQL_MIN (py "minimum age")
  else NoIntent.

Definition analytical_keywords : list pystr :=
  [py "how many"; py "count"; py "average"; py "sum"; py "total";
   py "rows"; py "maximum"; py "minimum"; py "number of";
   py "total number"; py "age"; py "salary"].

(** The class the specification calls analytical is the string
    ["sql_query"] in the source. *)
Definition detect_query_type (query : pystr) : QueryType :=
  if existsb (fun word => contains word (lower query)) analytical_keywords
  then sql_query
  else retrieval.

(** *** Routing *)

(** The branch of lines 184-206 (and 111-146) that a query takes: which
    branch it is depends on the query alone. *)
Inductive Route :=
| ViaCanned (sql explain : pystr)   (* retrieval, parse_intent gave SQL *)
| ViaRetrieval                      (* retrieval, retrieve_from_db *)
| ViaGeneratedSql.                  (* sql_query, generate_sql *)

Definition route (user_query : pystr) : Route :=
  match detect_query_type user_query with
  | retrieval =>
      match parse_intent user_query with
      | CannedSql sql explain => ViaCanned sql explain
      | NoIntent => ViaRetrieval
      end
  | sql_query => ViaGeneratedSql
  end.

(* ================================================================= *)
(** ** Exceptions *)

(** The outcome of a call: a value, or a raised exception carried as its
    message [str(e)]. *)
Inductive result (A : Type) :=
| Ok (a : A)
| Raise (msg : pystr).
Arguments Ok {A} a.
Arguments Raise {A} msg.

(* ================================================================= *)
(** ** SQL sanitiser (the tail of [generate_sql], [gemini_generator.py]) *)

Definition FENCE := py "```".
Definition SQL_TAG := py "sql" ++ [NL].

(** [str(IndexError)] of an out-of-range list index. *)
Definition INDEX_ERROR := py "list index out of range".

(** Lines 78-84: the fenced lines are dropped when the text starts with a
    fence. *)
Definition unfence (sql_text : pystr) : pystr :=
  if startswith FENCE sql_text then
    let lines := splitlines sql_text in
    let lines :=
      match lines with
      | first :: rest => if startswith FENCE first then rest else lines
      | [] => lines
      end in
    let lines :=
      match lines with
      | _ :: _ =>
          if startswith FENCE (last lines []) then removelast lines
          else lines
      | [] => lines
      end in
    strip (join_nl lines)
  else sql_text.

(** Lines 86-87: an initial language tag is dropped; [split("\n", 1)[1]]
    raises when the text has no line feed. *)
Definition untag (sql_text : pystr) : result pystr :=
  if startswith SQL_TAG (lower sql_text) then
    match after NL sql_text with
    | Some rest => Ok (strip rest)
    | None => Raise INDEX_ERROR
    end
  else Ok sql_text.

(** Lines 76-89, applied to [response.text]. *)
Definition sanitize (text : pystr) : result pystr :=
  match untag (unfence (strip text)) with
  | Ok sql_text => Ok (strip (before SEMI sql_text) ++ [SEMI])
  | Raise e => Raise e
  end.

(* ================================================================= *)
(** ** The environment of one invocation *)

(** Equality of database values as dictionary keys. *)
Class ValueEq (V : Type) := value_eq_dec : forall a b : V, {a = b} + {a <> b}.

Section Pipeline.

Context {Value : Type}.

(** A row is a tuple of column values; a statement is what
    [cursor.execute(sql, params)] receives. *)
Definition Row := list Value.
Definition Stmt := (pystr * list pystr)%type.

(** What [execute_sql] returns: [List[Tuple] | str]. *)
Inductive SqlResult :=
| Rows (rows : list Row)
| Message (text : pystr).

(** The collaborators the pipeline calls: the connection provider
    [db_config.get_connection], the MySQL cursor and the three language
    model calls ([gemini_sql_text query] is [response.text] for the
    prompt that [generate_sql] builds from the query, and likewise for
    [explain_sql_result] and [generate_answer]).  The database answers a
    statement in view of the statements it has received so far; [fetchall]
    returns the rows of the last statement.  [isalnum_nonascii] is
    [str.isalnum] beyond the ASCII range, which the regular expression
    class [\w] consults. *)
Record World := {
  get_connection_outcome : result unit;
  cursor_outcome : result unit;
  db_execute : list Stmt -> Stmt -> result unit;
  db_fetchall : list Stmt -> result (list Row);
  cursor_close_outcome : result unit;
  conn_close_outcome : result unit;
  gemini_sql_text : pystr -> result pystr;
  gemini_explanation : list Row -> pystr -> result pystr;
  gemini_answer : pystr -> list Row -> result pystr;
  isalnum_nonascii : N -> bool
}.

(** The dictionary [out] of [run_query]. *)
Record PipelineResult := {
  generated_sql : option pystr;
  sql_result : option SqlResult;
  retrieved_context : option (list Row);
  model_answer : option pystr;
  error : option pystr
}.

Definition empty_result : PipelineResult :=
  {| generated_sql := None; sql_result := None; retrieved_context := None;
     model_answer := None; error := None |}.

(** What [rag_pipeline] prints ([str] of a tuple is not rendered). *)
Inductive Printed :=
| PText (text : pystr)
| PSqlResult (r : SqlResult)
| PRows (rows : list Row).

(** The store: the statements sent to the database (oldest first), how
    often a connection and a cursor were acquired and how often [close]
    was called on each, the dictionary [out] and the console. *)
Record State := {
  executed : list Stmt;
  conn_opened : nat;
  cursor_opened : nat;
  cursor_closed : nat;
  conn_closed : nat;
  out : PipelineResult;
  stdout : list Printed
}.

Definition initial_state : State :=
  {| executed := []; conn_opened := 0; cursor_opened := 0;
     cursor_closed := 0; conn_closed := 0; out := empty_result;
     stdout := [] |}.

(** *** State and exception monad *)

Definition M (A : Type) := State -> result A * State.

Definition ret {A} (a : A) : M A := fun s => (Ok a, s).

Definition bind {A B} (m : M A) (k : A -> M B) : M B :=
  fun s =>
    match m s with
    | (Ok a, s') => k a s'
    | (Raise e, s') => (Raise e, s')
    end.

(** [try: m except Exception as e: handler(str(e))] *)
Definition try_except {A} (m : M A) (handler : pystr -> M A) : M A :=
  fun s =>
    match m s with
    | (Ok a, s') => (Ok a, s')
    | (Raise e, s') => handler e s'
    end.

(** A call whose outcome the environment decides and that leaves [upd] in
    the store whether it returns or raises. *)
Definition call {A} (outcome : State -> result A) (upd : State -> State) : M A :=
  fun s => (outcome s, upd s).

Definition modify (upd : State -> State) : M unit := fun s => (Ok tt, upd s).

(** [keeps f m]: running [m] does not change the component [f] of the
    store, whether [m] returns or raises. *)
Definition keeps {A X} (f : State -> X) (m : M A) : Prop :=
  forall s, f (snd (m s)) = f s.

(** [returns m]: [m] raises in no store. *)
Definition returns {A} (m : M A) : Prop :=
  forall s, exists a, fst (m s) = Ok a.

End Pipeline.

Arguments Row : clear implicits.
Arguments SqlResult : clear implicits.
Arguments World : clear implicits.
Arguments PipelineResult : clear implicits.
Arguments Printed : clear implicits.
Arguments State : clear implicits.
Arguments M : clear implicits.

Declare Scope py_scope.
Delimit Scope py_scope with py.
Notation "x <- m ;; k" := (bind m (fun x => k))
  (at level 100, m at next level, right associativity) : py_scope.
Notation "m ;; k" := (bind m (fun _ => k))
  (at level 100, right associativity) : py_scope.
Open Scope py_scope.

(* ================================================================= *)
(** ** The pipeline ([main.py]) *)

Section Operations.

Context {Value : Type} `{ValueEq Value}.
Variable w : World Value.

Local Abbreviation State := (State Value).
Local Abbreviation M := (M Value).
Local Abbreviation Row := (Row Value).
Local Abbreviation SqlResult := (SqlResult Value).

(** *** Store updates *)

Definition log_statement (st : Stmt) (s : State) : State :=
  {| executed := executed s ++ [st]; conn_opened := conn_opened s;
     cursor_opened := cursor_opened s; cursor_closed := cursor_closed s;
     conn_closed := conn_closed s; out := out s; stdout := stdout s |}.

Definition note_conn_opened (s : State) : State :=
  {| executed := executed s; conn_opened := S (conn_opened s);
     cursor_opened := cursor_opened s; cursor_closed := cursor_closed s;
     conn_closed := conn_closed s; out := out s; stdout := stdout s |}.

Definition note_cursor_opened (s : State) : State :=
  {| executed := executed s; conn_opened := conn_opened s;
     cursor_opened := S (cursor_opened s); cursor_closed := cursor_closed s;
     conn_closed := conn_closed s; out := out s; stdout := stdout s |}.

Definition note_cursor_closed (s : State) : State :=
  {| executed := executed s; conn_opened := conn_opened s;
     cursor_opened := cursor_opened s; cursor_closed := S (cursor_closed s);
     conn_closed := conn_closed s; out := out s; stdout := stdout s |}.

Definition note_conn_closed (s : State) : State :=
  {| executed := executed s; conn_opened := conn_opened s;
     cursor_opened := cursor_opened s; cursor_closed := cursor_closed s;
     conn_closed := S (conn_closed s); out := out s; stdout := stdout s |}.

Definition with_out (f : PipelineResult Value -> PipelineResult Value)
    (s : State) : State :=
  {| executed := executed s; conn_opened := conn_opened s;
     cursor_opened := cursor_opened s; cursor_closed := cursor_closed s;
     conn_closed := conn_closed s; out := f (out s); stdout := stdout s |}.

Definition with_printed (p : Printed Value) (s : State) : State :=
  {| executed := executed s; conn_opened := conn_opened s;
     cursor_opened := cursor_opened s; cursor_closed := cursor_closed s;
     conn_closed := conn_closed s; out := out s; stdout := stdout s ++ [p] |}.

(** [out[field] = value] *)
Definition put_generated_sql (v : pystr) (o : PipelineResult Value) :=
  {| generated_sql := Some v; sql_result := sql_result o;
     retrieved_context := retrieved_context o;
     model_answer := model_answer o; error := error o |}.

Definition put_sql_result (v : SqlResult) (o : PipelineResult Value) :=
  {| generated_sql := generated_sql o; sql_result := Some v;
     retrieved_context := retrieved_context o;
     model_answer := model_answer o; error := error o |}.

Definition put_retrieved_context (v : list Row) (o : PipelineResult Value) :=
  {| generated_sql := generated_sql o; sql_result := sql_result o;
     retrieved_context := Some v;
     model_answer := model_answer o; error := error o |}.

Definition put_model_answer (v : pystr) (o : PipelineResult Value) :=
  {| generated_sql := generated_sql o; sql_result := sql_result o;
     retrieved_context := retrieved_context o;
     model_answer := Some v; error := error o |}.

Definition put_error (v : pystr) (o : PipelineResult Value) :=
  {| generated_sql := generated_sql o; sql_result := sql_result o;
     retrieved_context := retrieved_context o;
     model_answer := model_answer o; error := Some v |}.

(** *** Calls into the environment *)

(** [get_connection()] and [conn.cursor()]: the resource counts as acquired
    when the call returns. *)
Definition get_connection : M unit :=
  fun s =>
    match get_connection_outcome w with
    | Ok _ => (Ok tt, note_conn_opened s)
    | Raise e => (Raise e, s)
    end.

Definition conn_cursor : M unit :=
  fun s =>
    match cursor_outcome w with
    | Ok _ => (Ok tt, note_cursor_opened s)
    | Raise e => (Raise e, s)
    end.

Definition cursor_execute (st : Stmt) : M unit :=
  call (fun s => db_execute w (executed s) st) (log_statement st).

Definition cursor_fetchall : M (list Row) :=
  call (fun s => db_fetchall w (executed s)) (fun s => s).

Definition cursor_close : M unit :=
  call (fun _ => cursor_close_outcome w) note_cursor_closed.

Definition conn_close : M unit :=
  call (fun _ => conn_close_outcome w) note_conn_closed.

Definition print (p : Printed Value) : M unit := modify (with_printed p).

(** [generate_sql]: the model's answer to the prompt built from the query,
    then the sanitiser. *)
Definition generate_sql (query : pystr) : M pystr :=
  call (fun _ => match gemini_sql_text w query with
                 | Ok text => sanitize text
                 | Raise e => Raise e
                 end) (fun s => s).

Definition explain_sql_result (rows : list Row) (query : pystr) : M pystr :=
  call (fun _ => gemini_explanation w rows query) (fun s => s).

Definition generate_answer (query : pystr) (context : list Row) : M pystr :=
  call (fun _ => gemini_answer w query context) (fun s => s).

(** *** Retrieval *)

Definition STOPWORDS : list pystr :=
  [py "who"; py "is"; py "what"; py "the"; py "a"; py "an"; py "of";
   py "in"; py "on"; py "at"; py "for"; py "to"].

Fixpoint str_eqb (a b : pystr) : bool :=
  match a, b with
  | [], [] => true
  | x :: a', y :: b' => (x =? y)%N && str_eqb a' b'
  | _, _ => false
  end.

(** [t in _STOPWORDS] *)
Definition in_stopwords (t : pystr) : bool := existsb (str_eqb t) STOPWORDS.

(** The class [\w] of a [str] pattern: alphanumeric or "_". *)
Definition is_word (c : N) : bool :=
  if (c <? 128)%N then
    ((48 <=? c) && (c <=? 57) || (65 <=? c) && (c <=? 90) ||
     (97 <=? c) && (c <=? 122) || (c =? 95))%N
  else isalnum_nonascii w c.

(** [re.findall(r"\w+", s)]: the maximal runs of word characters, left to
    right; [cur] is the run being read, reversed. *)
Fixpoint findall_words_from (cur : pystr) (s : pystr) : list pystr :=
  match s with
  | [] => match cur with [] => [] | _ => [rev cur] end
  | c :: s' =>
      if is_word c then findall_words_from (c :: cur) s'
      else match cur with
           | [] => findall_words_from [] s'
           | _ => rev cur :: findall_words_from [] s'
           end
  end.

Definition findall_words (s : pystr) : list pystr := findall_words_from [] s.

(** The list comprehension of line 79. *)
Definition fallback_tokens (query : pystr) : list pystr :=
  filter (fun t => negb (in_stopwords (lower t)) && (2 <? List.length t))
         (findall_words query).

Definition PERCENT : N := 37.

Definition LIKE_SQL : pystr :=
  [NL] ++ py "        SELECT * FROM people_info" ++
  [NL] ++ py "        WHERE name LIKE %s" ++
  [NL] ++ py "        OR company LIKE %s" ++
  [NL] ++ py "        OR role LIKE %s" ++
  [NL] ++ py "        OR background LIKE %s;" ++
  [NL] ++ py "    ".

(** [cursor.execute(sql_query, (w, w, w, w))] with [w = f"%{text}%"]. *)
Definition like_stmt (text : pystr) : Stmt :=
  let wildcard := PERCENT :: text ++ [PERCENT] in
  (LIKE_SQL, [wildcard; wildcard; wildcard; wildcard]).

(** The key of line 86: [row[0]], or the empty tuple itself. *)
Inductive Key :=
| KFirst (v : Value)
| KEmptyRow.

Definition row_key (row : Row) : Key :=
  match row with
  | v :: _ => KFirst v
  | [] => KEmptyRow
  end.

Definition key_eqb (a b : Key) : bool :=
  match a, b with
  | KFirst x, KFirst y => if value_eq_dec x y then true else false
  | KEmptyRow, KEmptyRow => true
  | _, _ => false
  end.

(** The dictionary [found], in insertion order.  [found[key] = row]
    replaces the value of a key that is present, at its place, and appends
    a new key. *)
Definition Dict := list (Key * Row).

Fixpoint dict_set (k : Key) (v : Row) (d : Dict) : Dict :=
  match d with
  | [] => [(k, v)]
  | (k', v') :: d' =>
      if key_eqb k' k then (k', v) :: d' else (k', v') :: dict_set k v d'
  end.

Definition dict_values (d : Dict) : list Row := map snd d.

(** The inner loop, lines 84-87. *)
Definition add_rows (rows : list Row) (found : Dict) : Dict :=
  fold_left (fun d row => dict_set (row_key row) row d) rows found.

(** The loop over the tokens, lines 81-87. *)
Fixpoint search_tokens (tokens : list pystr) (found : Dict) : M Dict :=
  match tokens with
  | [] => ret found
  | token :: rest =>
      cursor_execute (like_stmt token) ;;
      rows <- cursor_fetchall ;;
      search_tokens rest (add_rows rows found)
  end.

(** The guard of the name shortcut, line 67. *)
Definition name_shortcut (normalized : pystr) : bool :=
  (contains (py "name") normalized || contains (py "names") normalized)
  && any_in [py "all"; py "list"; py "tell"; py "show"; py "just"] normalized.

(** Lines 71-93: the search with the whole query, then with its tokens. *)
Definition fuzzy_search (query : pystr) : M (list Row) :=
  cursor_execute (like_stmt query) ;;
  results <- cursor_fetchall ;;
  match results with
  | [] =>
      found <- search_tokens (fallback_tokens query) [] ;;
      match found with
      | [] => ret results
      | _ :: _ => ret (dict_values found)
      end
  | _ :: _ => ret results
  end.

Definition retrieve_from_db (query : pystr) : M (list Row) :=
  let normalized := lower query in
  if name_shortcut normalized then
    cursor_execute (SQL_NAMES, []) ;;
    cursor_fetchall
  else fuzzy_search query.

(** *** Guarded execution *)

Definition ADVISORY := py " Only SELECT queries are allowed for safety.".

(** The prefix of the f-string of line 104: U+26A0 U+FE0F, then the text. *)
Definition SQL_ERROR_PREFIX : pystr := [9888%N; 65039%N] ++ py "SQL Error: ".

Definition execute_sql (sql : pystr) : M SqlResult :=
  if negb (startswith (py "select") (lower sql)) then ret (Message ADVISORY)
  else
    try_except
      (cursor_execute (sql, []) ;;
       result <- cursor_fetchall ;;
       ret (Rows result))
      (fun e => ret (Message (SQL_ERROR_PREFIX ++ e))).

(** *** The two entry points *)

Definition NO_DATA := py "No relevant data found.".

(** [if isinstance(result, list): ...] *)
Definition when_rows (result : SqlResult) (k : list Row -> M unit) : M unit :=
  match result with
  | Rows rows => k rows
  | Message _ => ret tt
  end.

(** Lines 189-194: the work of the branch of a canned intent. *)
Definition canned_work (sql user_query : pystr) : M unit :=
  modify (with_out (put_generated_sql sql)) ;;
  result <- execute_sql sql ;;
  modify (with_out (put_sql_result result)) ;;
  when_rows result (fun rows =>
    answer <- explain_sql_result rows user_query ;;
    modify (with_out (put_model_answer answer))).

(** Lines 199-204. *)
Definition retrieval_work (user_query : pystr) : M unit :=
  results <- retrieve_from_db user_query ;;
  match results with
  | [] => modify (with_out (put_model_answer NO_DATA))
  | _ :: _ =>
      modify (with_out (put_retrieved_context results)) ;;
      answer <- generate_answer user_query results ;;
      modify (with_out (put_model_answer answer))
  end.

(** Lines 207-212. *)
Definition generated_work (user_query : pystr) : M unit :=
  sql <- generate_sql user_query ;;
  modify (with_out (put_generated_sql sql)) ;;
  result <- execute_sql sql ;;
  modify (with_out (put_sql_result result)) ;;
  when_rows result (fun rows =>
    answer <- explain_sql_result rows user_query ;;
    modify (with_out (put_model_answer answer))).

(** The branch of a canned intent returns from inside the [try] after its
    own two calls of [close] (lines 195-197); the other two branches fall
    through to the calls of lines 214-215. *)
Definition canned_branch (sql user_query : pystr) : M unit :=
  canned_work sql user_query ;; cursor_close ;; conn_close.

Definition retrieval_branch (user_query : pystr) : M unit :=
  retrieval_work user_query ;; cursor_close ;; conn_close.

Definition generated_branch (user_query : pystr) : M unit :=
  generated_work user_query ;; cursor_close ;; conn_close.

(** The body of the [try] of [run_query], lines 181-215. *)
Definition run_query_try (user_query : pystr) : M unit :=
  get_connection ;;
  conn_cursor ;;
  let query_type := detect_query_type user_query in
  match query_type with
  | retrieval =>
      let intent := parse_intent user_query in
      match intent with
      | CannedSql sql _ => canned_branch sql user_query
      | NoIntent => retrieval_branch user_query
      end
  | sql_query => generated_branch user_query
  end.

(** [run_query]: a fresh [out], the [try] with its handler, [return out]. *)
Definition run_query (user_query : pystr) (s : State)
    : PipelineResult Value * State :=
  let s0 := with_out (fun _ => empty_result) s in
  match try_except (run_query_try user_query)
                   (fun e => modify (with_out (put_error e))) s0 with
  | (_, s') => (out s', s')
  end.

Definition SQL_HEADER : pystr := [NL] ++ py "--- Generated SQL ---" ++ [NL].
Definition RESULT_HEADER : pystr := [NL] ++ py "--- SQL Query Result ---".
Definition ANSWER_HEADER : pystr := [NL] ++ py "--- Model Answer ---".
Definition CONTEXT_HEADER : pystr := [NL] ++ py "--- Retrieved Context ---".

(** Lines 117-126 of [rag_pipeline]: the work of the branch of a canned
    intent, printing instead of filling [out]. *)
Definition rag_canned_work (sql user_query : pystr) : M unit :=
  print (PText (SQL_HEADER ++ sql)) ;;
  result <- execute_sql sql ;;
  print (PText RESULT_HEADER) ;;
  print (PSqlResult result) ;;
  when_rows result (fun rows =>
    answer <- explain_sql_result rows user_query ;;
    print (PText ANSWER_HEADER) ;;
    print (PText answer)).

(** Lines 131-144. *)
Definition rag_retrieval_work (user_query : pystr) : M unit :=
  results <- retrieve_from_db user_query ;;
  match results with
  | [] => print (PText NO_DATA)
  | _ :: _ =>
      print (PText CONTEXT_HEADER) ;;
      print (PRows results) ;;
      answer <- generate_answer user_query results ;;
      print (PText ANSWER_HEADER) ;;
      print (PText answer)
  end.

(** Lines 147-156. *)
Definition rag_generated_work (user_query : pystr) : M unit :=
  sql <- generate_sql user_query ;;
  print (PText (SQL_HEADER ++ sql)) ;;
  result <- execute_sql sql ;;
  print (PText RESULT_HEADER) ;;
  print (PSqlResult result) ;;
  when_rows result (fun rows =>
    answer <- explain_sql_result rows user_query ;;
    print (PText ANSWER_HEADER) ;;
    print (PText answer)).

(** [rag_pipeline], lines 107-159: the same routing as [run_query], with no
    handler around it.  The branch of a canned intent closes and returns
    (lines 127-129); the other two fall through to lines 158-159. *)
Definition rag_pipeline (user_query : pystr) : M unit :=
  get_connection ;;
  conn_cursor ;;
  let query_type := detect_query_type user_query in
  match query_type with
  | retrieval =>
      let intent := parse_intent user_query in
      match intent with
      | CannedSql sql _ =>
          rag_canned_work sql user_query ;; cursor_close ;; conn_close
      | NoIntent =>
          rag_retrieval_work user_query ;; cursor_close ;; conn_close
      end
  | sql_query =>
      rag_generated_work user_query ;; cursor_close ;; conn_close
  end.

(** *** Predicates of the statements below *)

(** The dictionary holds every key once, and every row under its own
    key. *)
Definition keyed (d : Dict) : Prop :=
  NoDup (map fst d) /\ Forall (fun kr => fst kr = row_key (snd kr)) d.

(** The database raises on no statement. *)
Definition db_answers : Prop :=
  (forall h st, exists u, db_execute w h st = Ok u) /\
  (forall h, exists rows, db_fetchall w h = Ok rows).

(** The words of a text, as [re.findall(r"\w+", s)] is documented to
    return them: the maximal runs of word characters, from left to right.
    A character that is not a word character is skipped; a word is
    followed by the end of the text or by such a character. *)
Inductive Words : pystr -> list pystr -> Prop :=
| words_end : Words [] []
| words_skip (c : N) (s : pystr) (ts : list pystr) :
    is_word c = false -> Words s ts -> Words (c :: s) ts
| words_word (t rest : pystr) (ts : list pystr) :
    t <> [] -> forallb is_word t = true ->
    match rest with [] => True | c :: _ => is_word c = false end ->
    Words rest ts -> Words (t ++ rest) (t :: ts).

(** The part of the store that only [get_connection], [conn.cursor()] and
    the two [close] calls change. *)
Definition resources (s : State) : nat * nat * nat * nat :=
  (conn_opened s, cursor_opened s, cursor_closed s, conn_closed s).

Definition error_field (s : State) : option pystr := error (out s).

(** A component of the store that neither a statement sent to the
    database, nor an assignment to a field of [out] other than [error],
    changes. *)
Definition inert {X} (f : State -> X) : Prop :=
  (forall st s, f (log_statement st s) = f s) /\
  (forall v s, f (with_out (put_generated_sql v) s) = f s) /\
  (forall v s, f (with_out (put_sql_result v) s) = f s) /\
  (forall v s, f (with_out (put_retrieved_context v) s) = f s) /\
  (forall v s, f (with_out (put_model_answer v) s) = f s).

(** The work of the branch that a query is routed to. *)
Definition routed_work (q : pystr) : M unit :=
  match route q with
  | ViaCanned sql _ => canned_work sql q
  | ViaRetrieval => retrieval_work q
  | ViaGeneratedSql => generated_work q
  end.

(** No call into the environment raises. *)
Definition no_collaborator_raises : Prop :=
  (exists u, get_connection_outcome w = Ok u) /\
  (exists u, cursor_outcome w = Ok u) /\
  db_answers /\
  (exists u, cursor_close_outcome w = Ok u) /\
  (exists u, conn_close_outcome w = Ok u) /\
  (forall q, exists t, gemini_sql_text w q = Ok t) /\
  (forall rows q, exists t, gemini_explanation w rows q = Ok t) /\
  (forall q rows, exists t, gemini_answer w q rows = Ok t).

End Operations.

Arguments Key : clear implicits.
Arguments Dict : clear implicits.

(* ================================================================= *)
(** ** Statements sent to the database *)

Section Traffic.

Context {Value : Type} `{ValueEq Value}.
Variable w : World Value.

(** [sends m allowed n]: whatever [m] does, and whether it returns or
    raises, it sends at most [n] further statements to the database and
    each of them is [allowed]. *)
Definition sends {A} (m : M Value A) (allowed : Stmt -> Prop) (n : nat)
    : Prop :=
  forall s, exists new,
    executed (snd (m s)) = executed s ++ new /\
    Forall allowed new /\ List.length new <= n.

(** The statements one invocation may send for a query, by its route: the
    canned statement; the LIKE statement with the whole query or one of
    its tokens as its parameter; a generated statement that passed the
    sanitiser and the guard. *)
Definition statement_allowed (q : pystr) (st : Stmt) : Prop :=
  match route q with
  | ViaCanned sql _ => st = (sql, [])
  | ViaRetrieval =>
      st = like_stmt q \/
      exists t, In t (fallback_tokens w q) /\ st = like_stmt t
  | ViaGeneratedSql =>
      exists body,
        st = (body ++ [SEMI], []) /\ ~ In SEMI body /\
        startswith (py "select") (lower (body ++ [SEMI])) = true
  end.

Definition statement_budget (q : pystr) : nat :=
  match route q with
  | ViaRetrieval => S (List.length (fallback_tokens w q))
  | _ => 1
  end.

(** The SQL texts that the program holds as literals. *)
Definition literal_statements : list pystr :=
  [SQL_NAMES; SQL_COMPANIES; SQL_ROLES; SQL_AGES; SQL_COUNT; SQL_SUM;
   SQL_AVG; SQL_MAX; SQL_MIN; LIKE_SQL].

End Traffic.

(* ================================================================= *)
(** ** Shapes of the record returned by [run_query] *)

Section Shapes.

Context {Value : Type}.

(** The fillings of [out] that the assignments of [run_query] can reach,
    [error] aside: nothing; the statement; the statement and its result;
    the statement, its rows and their explanation; the fixed answer for
    no data; the rows retrieved; the rows retrieved and their answer. *)
Inductive Filled : PipelineResult Value -> Prop :=
| filled_nothing : Filled empty_result
| filled_statement (sql : pystr) :
    Filled (put_generated_sql sql empty_result)
| filled_result (sql : pystr) (r : SqlResult Value) :
    Filled (put_sql_result r (put_generated_sql sql empty_result))
| filled_explained (sql : pystr) (rows : list (Row Value)) (a : pystr) :
    Filled (put_model_answer a
              (put_sql_result (Rows rows) (put_generated_sql sql empty_result)))
| filled_no_data : Filled (put_model_answer NO_DATA empty_result)
| filled_context (row : Row Value) (rows : list (Row Value)) :
    Filled (put_retrieved_context (row :: rows) empty_result)
| filled_answered (row : Row Value) (rows : list (Row Value)) (a : pystr) :
    Filled (put_model_answer a
              (put_retrieved_context (row :: rows) empty_result)).

(** The fillings of a run that ended without exception: a statement whose
    result is a message and no answer; a statement, its rows and their
    explanation; the fixed answer for no data; rows and their answer. *)
Inductive Completed : PipelineResult Value -> Prop :=
| completed_message (sql msg : pystr) :
    Completed (put_sql_result (Message msg)
                 (put_generated_sql sql empty_result))
| completed_explained (sql : pystr) (rows : list (Row Value)) (a : pystr) :
    Completed (put_model_answer a
                 (put_sql_result (Rows rows)
                    (put_generated_sql sql empty_result)))
| completed_no_data : Completed (put_model_answer NO_DATA empty_result)
| completed_answered (row : Row Value) (rows : list (Row Value)) (a : pystr) :
    Completed (put_model_answer a
                 (put_retrieved_context (row :: rows) empty_result)).

(** What a computation leaves in [out] when it starts on an empty [out]:
    a filling, and a completed one if it returns. *)
Definition fills {A} (m : M Value A) : Prop :=
  forall s r s',
    out s = empty_result -> m s = (r, s') ->
    Filled (out s') /\ (forall a, r = Ok a -> Completed (out s')).

End Shapes.

(* ================================================================= *)
(** ** Comparing the two entry points *)

Section EntryPoints.

Context {Value : Type}.

(** What the outside sees of a store: the statements sent and the
    acquisitions and releases, not [out] or the console. *)
Definition footprint (s : State Value) : list Stmt * (nat * nat * nat * nat) :=
  (executed s, resources s).

(** Two computations that, from stores with the same footprint, have the
    same outcome and leave the same footprint. *)
Definition mirrors {A} (m1 m2 : M Value A) : Prop :=
  forall s1 s2,
    footprint s1 = footprint s2 ->
    fst (m1 s1) = fst (m2 s2) /\
    footprint (snd (m1 s1)) = footprint (snd (m2 s2)).

(** Bookkeeping: a computation that returns and leaves the footprint as it
    was. *)
Definition silent (m : M Value unit) : Prop :=
  forall s, fst (m s) = Ok tt /\ footprint (snd (m s)) = footprint s.

(** What [rag_pipeline] prints for a record of [run_query], field by
    field in the order of the assignments: the statement under its header
    (one [print]), the result under its header, the rows under theirs, and
    the answer under its header, or bare where lines 132-133 print the
    fixed answer for no data.  [error] is not printed. *)
Definition transcript (o : PipelineResult Value) : list (Printed Value) :=
  match generated_sql o with
  | Some sql => [PText (SQL_HEADER ++ sql)]
  | None => []
  end ++
  match sql_result o with
  | Some x => [PText RESULT_HEADER; PSqlResult x]
  | None => []
  end ++
  match retrieved_context o with
  | Some rows => [PText CONTEXT_HEADER; PRows rows]
  | None => []
  end ++
  match model_answer o with
  | Some a =>
      match generated_sql o, retrieved_context o with
      | None, None => [PText a]
      | _, _ => [PText ANSWER_HEADER; PText a]
      end
  | None => []
  end.

End EntryPoints.

(* ================================================================= *)
(** ** Order and content of the fallback dictionary *)

Section FallbackOrder.

Context {Value : Type} `{ValueEq Value}.

(** [k in seen], for keys. *)
Definition key_in (k : Key Value) (seen : list (Key Value)) : bool :=
  existsb (fun k' => key_eqb k' k) seen.

(** The keys of a list in the order of their first appearance, leaving
    out those already [seen]. *)
Fixpoint first_seen (seen keys : list (Key Value)) : list (Key Value) :=
  match keys with
  | [] => []
  | k :: rest =>
      if key_in k seen then first_seen seen rest
      else k :: first_seen (k :: seen) rest
  end.

(** [r] is the last of [rows] with its key. *)
Definition last_of_key (rows : list (Row Value)) (r : Row Value) : Prop :=
  exists pre post,
    rows = pre ++ r :: post /\
    forall r', In r' post -> row_key r' <> row_key r.

(** The rows that the loop over the tokens fetches, in order, when the
    statements sent before it are [history]: the rows of each token's
    search, up to the first [fetchall] that raises. *)
Fixpoint fetched_rows (w : World Value) (tokens : list pystr)
    (history : list Stmt) : list (Row Value) :=
  match tokens with
  | [] => []
  | token :: rest =>
      match db_fetchall w (history ++ [like_stmt token]) with
      | Ok rows => rows ++ fetched_rows w rest (history ++ [like_stmt token])
      | Raise _ => []
      end
  end.

End FallbackOrder.

(* ================================================================= *)
(** ** The language-model client ([gemini_generator.py]) *)

Module Gemini.

Section Client.

Context {Value Model : Type}.

(** [str(val)] and [repr(val)] of a database value. *)
Variable value_str : Value -> pystr.
Variable value_repr : Value -> pystr.

(** The SDK: [genai.GenerativeModel(name)] at its n-th call, and
    [model.generate_content(prompt).text] in view of the requests made
    before. *)
Record Sdk := {
  construct : nat -> pystr -> result Model;
  generate_content : list (Model * pystr) -> Model -> pystr -> result pystr
}.

Variable sdk : Sdk.

(** The module state: the global [_model], how often the constructor was
    called, and the requests sent, oldest first. *)
Record Client := {
  model_slot : option Model;
  constructed : nat;
  requests : list (Model * pystr)
}.

Definition fresh_client : Client :=
  {| model_slot := None; constructed := 0; requests := [] |}.

Definition GEMINI_MODEL := py "gemini-2.5-flash".

(** [get_model], lines 15-20. *)
Definition get_model (c : Client) : result Model * Client :=
  match model_slot c with
  | None =>
      match construct sdk (constructed c) GEMINI_MODEL with
      | Ok m =>
          (Ok m, {| model_slot := Some m; constructed := S (constructed c);
                    requests := requests c |})
      | Raise e =>
          (Raise e, {| model_slot := None; constructed := S (constructed c);
                       requests := requests c |})
      end
  | Some m => (Ok m, c)
  end.

(** [model = get_model(); response = model.generate_content(prompt);
    response.text], the tail of the three generators. *)
Definition ask (prompt : pystr) (c : Client) : result pystr * Client :=
  match get_model c with
  | (Ok m, c1) =>
      (generate_content sdk (requests c1) m prompt,
       {| model_slot := model_slot c1; constructed := constructed c1;
          requests := requests c1 ++ [(m, prompt)] |})
  | (Raise e, c1) => (Raise e, c1)
  end.

(** [sep.join(parts)] *)
Fixpoint join (sep : pystr) (parts : list pystr) : pystr :=
  match parts with
  | [] => []
  | [p] => p
  | p :: rest => p ++ sep ++ join sep rest
  end.

Definition COLS : list pystr :=
  [py "id"; py "name"; py "age"; py "height"; py "weight"; py "company";
   py "role"; py "background"].

(** [str(i)] of a natural number. *)
Definition str_of_nat (i : nat) : pystr :=
  py (DecimalString.NilEmpty.string_of_uint (Nat.to_uint i)).

(** Line 38: [cols[i] if i < len(cols) else f"col{i}"]. *)
Definition column_label (i : nat) : pystr :=
  if i <? List.length COLS then nth i COLS [] else py "col" ++ str_of_nat i.

(** Lines 36-39: the items of a row, from index [i] on. *)
Fixpoint items_from (i : nat) (row : Row Value) : list pystr :=
  match row with
  | [] => []
  | val :: rest =>
      (column_label i ++ py ": " ++ value_str val) :: items_from (S i) rest
  end.

Definition format_row (row : Row Value) : pystr :=
  join (py ", ") (items_from 0 row).

(** The argument [context: Union[str, List[Tuple]]]. *)
Inductive Context :=
| ContextRows (rows : list (Row Value))
| ContextText (text : pystr).

(** Lines 30-45. *)
Definition readable_context (context : Context) : pystr :=
  match context with
  | ContextRows rows => join [NL] (map format_row rows)
  | ContextText text => text
  end.

(** The f-string of lines 47-56. *)
Definition answer_prompt (user_query readable : pystr) : pystr :=
  [NL] ++ py "You are a helpful AI assistant. Use the following context from the MySQL database to answer the question concisely." ++
  [NL; NL] ++ py "Context (structured):" ++
  [NL] ++ readable ++
  [NL; NL] ++ py "Question: " ++ user_query ++
  [NL; NL] ++ py "Please answer in natural language. Do not repeat raw tuples; summarize the most relevant record(s) as a short paragraph." ++
  [NL].

Definition generate_answer (user_query : pystr) (context : Context)
    (c : Client) : result pystr * Client :=
  ask (answer_prompt user_query (readable_context context)) c.

(** The f-string of lines 64-71. *)
Definition sql_prompt (query : pystr) : pystr :=
  [NL] ++ py "    You are an expert MySQL assistant. " ++
  [NL] ++ py "    Convert the following natural language question into a valid SQL query " ++
  [NL] ++ py "    for a table named `people_info` with columns: name, age, company, role, background." ++
  [NL] ++ py "    " ++
  [NL] ++ py "    Question: " ++ query ++
  [NL] ++ py "    Return only the SQL query, nothing else." ++
  [NL] ++ py "    ".

(** [generate_sql], lines 62-89. *)
Definition generate_sql (query : pystr) (c : Client)
    : result pystr * Client :=
  match ask (sql_prompt query) c with
  | (Ok text, c') => (sanitize text, c')
  | (Raise e, c') => (Raise e, c')
  end.

(** [repr] of a tuple and [str] of a list of tuples. *)
Definition tuple_repr (row : Row Value) : pystr :=
  match row with
  | [] => py "()"
  | [v] => py "(" ++ value_repr v ++ py ",)"
  | _ => py "(" ++ join (py ", ") (map value_repr row) ++ py ")"
  end.

Definition rows_repr (rows : list (Row Value)) : pystr :=
  py "[" ++ join (py ", ") (map tuple_repr rows) ++ py "]".

(** The f-string of line 93. *)
Definition explain_prompt (rows : list (Row Value)) (query : pystr) : pystr :=
  py "Based on this SQL result " ++ rows_repr rows ++
  py ", answer the question: " ++ query.

(** [explain_sql_result], lines 91-96. *)
Definition explain_sql_result (rows : list (Row Value)) (query : pystr)
    (c : Client) : result pystr * Client :=
  ask (explain_prompt rows query) c.

(** A call of one of the three generators, and a session of calls in
    order, whatever each of them returns. *)
Inductive Call :=
| CallAnswer (user_query : pystr) (context : Context)
| CallSql (query : pystr)
| CallExplain (rows : list (Row Value)) (query : pystr).

Definition perform (call : Call) (c : Client) : result pystr * Client :=
  match call with
  | CallAnswer q context => generate_answer q context c
  | CallSql q => generate_sql q c
  | CallExplain rows q => explain_sql_result rows q c
  end.

Definition session (calls : list Call) (c : Client) : Client :=
  fold_left (fun c call => snd (perform call c)) calls c.

(** How many calls of the constructor returned a model, among the first
    [n]. *)
Fixpoint models_built (n : nat) : nat :=
  match n with
  | 0 => 0
  | S k =>
      models_built k +
      match construct sdk k GEMINI_MODEL with Ok _ => 1 | Raise _ => 0 end
  end.

(** The client holds a model exactly when one call of the constructor has
    returned, every request went to that model, and without a model no
    request was sent. *)
Definition coherent (c : Client) : Prop :=
  match model_slot c with
  | Some m =>
      models_built (constructed c) = 1 /\
      Forall (fun r => fst r = m) (requests c)
  | None => models_built (constructed c) = 0 /\ requests c = []
  end.

End Client.

End Gemini.

(* ================================================================= *)
(** ** The Streamlit page, [streamlit_app.py] *)

Module App.

Section Page.

Context {Value : Type} `{ValueEq Value}.
Variable w : World Value.

(** Python's [None] as the value of a cell. *)
Variable none : Value.

(** [rowdict]: a dict with the keys of [cols], in insertion order. *)
Definition Rowdict := list (pystr * Value).

(** [import pandas], [pd.DataFrame(df_rows)] and [st.dataframe(df)] inside
    the [try] of lines 29-38: they show the table, or one of them raises
    and nothing is shown.  The other calls of Streamlit are taken to
    return. *)
Variable dataframe_outcome : list Rowdict -> result unit.

(** What the script writes to the page ([st.set_page_config] writes
    nothing). *)
Inductive Widget :=
| Title (text : pystr)
| Write (text : pystr)
| TextInput (label placeholder : pystr)
| Button (label : pystr)
| Spinner (text : pystr)
| ErrorBox (text : pystr)
| Subheader (text : pystr)
| Code (text : pystr)
| WriteResult (r : SqlResult Value)
| Dataframe (df_rows : list Rowdict)
| WriteRow (r : Row Value)
| Markdown (text : pystr)
| Caption (text : pystr).

Definition cols : list pystr :=
  [py "id"; py "name"; py "age"; py "height"; py "weight"; py "company";
   py "role"; py "background"].

(** [{cols[i]: r[i] if i < len(r) else None for i in range(len(cols))}] *)
Definition rowdict (r : Row Value) : Rowdict :=
  map (fun i => (nth i cols [], nth i r none)) (seq 0 (List.length cols)).

(** Lines 29-41: the table, or in the handler one [st.write] per row. *)
Definition show_rows (rows : list (Row Value)) : list Widget :=
  match dataframe_outcome (map rowdict rows) with
  | Ok _ => [Dataframe (map rowdict rows)]
  | Raise _ => map WriteRow rows
  end.

Definition SQL_SECTION := py "Generated / Executed SQL".
Definition RESULT_SECTION := py "SQL Result".
Definition ROWS_SECTION := py "Retrieved Rows".
Definition ANSWER_SECTION := py "Model Answer".

Definition statement_section (r : PipelineResult Value) : list Widget :=
  match generated_sql r with
  | Some (c :: sql) => [Subheader SQL_SECTION; Code (c :: sql)]
  | _ => []
  end.

Definition result_section (r : PipelineResult Value) : list Widget :=
  match sql_result r with
  | Some x => [Subheader RESULT_SECTION; WriteResult x]
  | None => []
  end.

Definition rows_section (r : PipelineResult Value) : list Widget :=
  match retrieved_context r with
  | Some (row :: rows) => Subheader ROWS_SECTION :: show_rows (row :: rows)
  | _ => []
  end.

Definition answer_section (r : PipelineResult Value) : list Widget :=
  match model_answer r with
  | Some (c :: answer) => [Subheader ANSWER_SECTION; Write (c :: answer)]
  | _ => []
  end.

(** Lines 14-45, with the truth values of Python: a string or a list
    counts when it is not empty, [None] never does. *)
Definition render (r : PipelineResult Value) : list Widget :=
  match error r with
  | Some (c :: e) => [ErrorBox (py "Error: " ++ c :: e)]
  | _ =>
      statement_section r ++ result_section r ++ rows_section r ++
      answer_section r
  end.

Definition HEAD : list Widget :=
  [Title (py "RAG + MySQL Explorer");
   Write (py "Ask questions about the `people_info` table. The app will either run SQL or retrieve and summarize records using the LLM.");
   TextInput (py "Enter your query")
             (py "e.g. who is Asmi? or just list names");
   Button (py "Run")].

Definition FOOT : list Widget :=
  [Markdown (py "---");
   Caption (py "Note: make sure your `.env` is configured and the virtualenv has the required packages. Run with: `streamlit run streamlit_app.py`")].

(** [st.button("Run") and query] *)
Definition runs (query : pystr) (clicked : bool) : bool :=
  clicked && match query with [] => false | _ :: _ => true end.

(** One run of the script, for the text in the input and whether the
    button was pressed. *)
Definition page (query : pystr) (clicked : bool) (s : State Value)
    : list Widget * State Value :=
  if runs query clicked then
    let (result, s') := run_query w query s in
    (HEAD ++ Spinner (py "Running...") :: render result ++ FOOT, s')
  else (HEAD ++ FOOT, s).

(** The bodies that the page shows between the spinner and the rule: the
    error alone; or, each part only if it is there, the statement with
    its result and the explanation of its rows; or the rows retrieved,
    never empty, as one table or row by row, and their answer; or the
    answer alone; or nothing. *)
Definition answer_widgets (a : pystr) : list Widget :=
  match a with
  | [] => []
  | _ :: _ => [Subheader ANSWER_SECTION; Write a]
  end.

Inductive Layout : list Widget -> Prop :=
| layout_error (e : pystr) :
    e <> [] -> Layout [ErrorBox (py "Error: " ++ e)]
| layout_nothing : Layout []
| layout_statement (sql : pystr) :
    sql <> [] -> Layout [Subheader SQL_SECTION; Code sql]
| layout_message (sql : pystr) (x : SqlResult Value) :
    sql <> [] ->
    Layout [Subheader SQL_SECTION; Code sql;
            Subheader RESULT_SECTION; WriteResult x]
| layout_explained (sql : pystr) (rows : list (Row Value)) (a : pystr) :
    sql <> [] ->
    Layout ([Subheader SQL_SECTION; Code sql;
             Subheader RESULT_SECTION; WriteResult (Rows rows)] ++
            answer_widgets a)
| layout_answer (a : pystr) : Layout (answer_widgets a)
| layout_table (row : Row Value) (rows : list (Row Value)) (a : pystr) :
    dataframe_outcome (map rowdict (row :: rows)) = Ok tt ->
    Layout (Subheader ROWS_SECTION :: Dataframe (map rowdict (row :: rows))
            :: answer_widgets a)
| layout_rows (row : Row Value) (rows : list (Row Value)) (a e : pystr) :
    dataframe_outcome (map rowdict (row :: rows)) = Raise e ->
    Layout (Subheader ROWS_SECTION :: map WriteRow (row :: rows) ++
            answer_widgets a).

End Page.

End App.

(* ================================================================= *)
(** ** A sample environment *)

(** A two-row [people_info] table behind a database that answers the
    statements of the pipeline, and language-model stubs.  It serves to
    run the pipeline on concrete queries. *)
Module Sample.

Inductive Cell :=
| CNull
| CInt (n : N)
| CText (s : pystr).

#[global] Instance Cell_eq : ValueEq Cell.
Proof.
  intros a b. unfold pystr in *.
  decide equality; [apply N.eq_dec | apply (list_eq_dec N.eq_dec)].
Defined.

Definition asmi : Row Cell :=
  [CInt 1; CText (py "Asmi"); CInt 21; CInt 160; CInt 55;
   CText (py "Acme"); CText (py "Engineer"); CText (py "builds data tools")].

Definition ravi : Row Cell :=
  [CInt 2; CText (py "Ravi"); CInt 35; CInt 175; CInt 70;
   CText (py "Globex"); CText (py "Manager"); CText (py "leads the sales team")].

Definition people_info : list (Row Cell) := [asmi; ravi].

Definition text_of (c : Cell) : pystr :=
  match c with
  | CText s => s
  | _ => []
  end.

(** [name LIKE p OR company LIKE p OR role LIKE p OR background LIKE p]
    for a pattern [p = %text%], compared without regard to case. *)
Definition like_match (pattern : pystr) (row : Row Cell) : bool :=
  let needle := lower (removelast (tl pattern)) in
  existsb (fun i => contains needle (lower (text_of (nth i row CNull))))
          [1; 5; 6; 7].

Definition answer (st : Stmt) : list (Row Cell) :=
  let (sql, params) := st in
  if str_eqb sql LIKE_SQL then
    match params with
    | p :: _ => filter (like_match p) people_info
    | [] => []
    end
  else if str_eqb sql SQL_NAMES then map (firstn 2) people_info
  else if str_eqb sql SQL_COUNT then [[CInt (N.of_nat (List.length people_info))]]
  else [].

Definition fenced_count : pystr :=
  py "```sql" ++ [NL] ++ SQL_COUNT ++ [NL] ++ py "```".

(** Every collaborator answers. *)
Definition world : World Cell :=
  {| get_connection_outcome := Ok tt;
     cursor_outcome := Ok tt;
     db_execute := fun _ _ => Ok tt;
     db_fetchall := fun history =>
       match rev history with
       | st :: _ => Ok (answer st)
       | [] => Raise (py "No result set to fetch from.")
       end;
     cursor_close_outcome := Ok tt;
     conn_close_outcome := Ok tt;
     gemini_sql_text := fun _ => Ok fenced_count;
     gemini_explanation := fun _ _ => Ok (py "There are 2 people.");
     gemini_answer := fun _ _ => Ok (py "Asmi is an engineer at Acme.");
     isalnum_nonascii := fun _ => false |}.

(** The same, with a language model that fails when asked to explain a
    result. *)
Definition world_explainer_down : World Cell :=
  {| get_connection_outcome := Ok tt;
     cursor_outcome := Ok tt;
     db_execute := db_execute world;
     db_fetchall := db_fetchall world;
     cursor_close_outcome := Ok tt;
     conn_close_outcome := Ok tt;
     gemini_sql_text := gemini_sql_text world;
     gemini_explanation := fun _ _ => Raise (py "429 quota exceeded");
     gemini_answer := gemini_answer world;
     isalnum_nonascii := isalnum_nonascii world |}.

(** The same, with a language model that fails on every call. *)
Definition world_model_down : World Cell :=
  {| get_connection_outcome := Ok tt;
     cursor_outcome := Ok tt;
     db_execute := db_execute world;
     db_fetchall := db_fetchall world;
     cursor_close_outcome := Ok tt;
     conn_close_outcome := Ok tt;
     gemini_sql_text := fun _ => Raise (py "API key not valid");
     gemini_explanation := fun _ _ => Raise (py "API key not valid");
     gemini_answer := fun _ _ => Raise (py "API key not valid");
     isalnum_nonascii := isalnum_nonascii world |}.

(** A language model that answers every request for SQL with a statement
    that drops the table. *)
Definition world_drop : World Cell :=
  {| get_connection_outcome := Ok tt;
     cursor_outcome := Ok tt;
     db_execute := db_execute world;
     db_fetchall := db_fetchall world;
     cursor_close_outcome := Ok tt;
     conn_close_outcome := Ok tt;
     gemini_sql_text := fun _ => Ok (py "DROP TABLE people_info; SELECT 1;");
     gemini_explanation := gemini_explanation world;
     gemini_answer := gemini_answer world;
     isalnum_nonascii := isalnum_nonascii world |}.

(** [str] of a cell. *)
Definition cell_str (c : Cell) : pystr :=
  match c with
  | CNull => py "None"
  | CInt n => Gemini.str_of_nat (N.to_nat n)
  | CText s => s
  end.

End Sample.

(* ================================================================= *)
(** * Properties *)

Unset Implicit Arguments.

(** ** Text *)

Lemma startswith_spec (p s : pystr) :
  startswith p s = true <-> exists t, s = p ++ t.
Proof.
  revert s; induction p as [|a p IH]; intros s; simpl.
  - split; [intros _; now exists s | reflexivity].
  - destruct s as [|b s].
    + split; [discriminate | intros [t Ht]; discriminate].
    + rewrite andb_true_iff, N.eqb_eq, IH. split.
      * intros [-> [t ->]]. now exists t.
      * intros [t Ht]. injection Ht as -> ->. split; [reflexivity | now exists t].
Qed.

Lemma contains_spec (sub s : pystr) :
  contains sub s = true <-> exists a b, s = a ++ sub ++ b.
Proof.
  induction s as [|c s IH]; simpl.
  - rewrite orb_false_r, startswith_spec. split.
    + intros [t Ht]. now exists [], t.
    + intros [a [b Hab]]. destruct a; [now exists b | discriminate].
  - rewrite orb_true_iff, startswith_spec, IH. split.
    + intros [[t Ht] | [a [b Hab]]].
      * now exists [], t.
      * exists (c :: a), b. now rewrite Hab.
    + intros [[|x a] [b Hab]].
      * left. now exists b.
      * right. injection Hab as _ ->. now exists a, b.
Qed.

(** A text that contains [k] contains every piece of [k]. *)
Lemma contains_trans (j k s : pystr) :
  contains j k = true -> contains k s = true -> contains j s = true.
Proof.
  rewrite !contains_spec. intros [a [b ->]] [c [d ->]].
  exists (c ++ a), (b ++ d). now rewrite <- !app_assoc.
Qed.

Lemma contains_false_sub (j k s : pystr) :
  contains j k = true -> contains j s = false -> contains k s = false.
Proof.
  intros Hjk Hj. destruct (contains k s) eqn:Hk; [|reflexivity].
  now rewrite (contains_trans _ _ _ Hjk Hk) in Hj.
Qed.

(** ** Classifier and resolver *)

Lemma detect_retrieval_iff (q : pystr) :
  detect_query_type q = retrieval <->
  forall k, In k analytical_keywords -> contains k (lower q) = false.
Proof.
  unfold detect_query_type.
  destruct (existsb _ analytical_keywords) eqn:E.
  - split; [discriminate|]. intros Hall.
    apply existsb_exists in E as [k [Hin Hk]]. now rewrite (Hall k Hin) in Hk.
  - split; [|reflexivity]. intros _ k Hin.
    destruct (contains k (lower q)) eqn:Hk; [|reflexivity].
    assert (existsb (fun word => contains word (lower q)) analytical_keywords = true)
      by (apply existsb_exists; now exists k).
    congruence.
Qed.

Lemma detect_sql_query_iff (q : pystr) :
  detect_query_type q = sql_query <->
  exists k, In k analytical_keywords /\ contains k (lower q) = true.
Proof.
  unfold detect_query_type.
  destruct (existsb _ analytical_keywords) eqn:E.
  - split; [|reflexivity]. intros _. now apply existsb_exists in E.
  - split; [discriminate|]. intros Hex. apply existsb_exists in Hex. congruence.
Qed.

(** (C9) The classifier answers [sql_query] (the analytical class) exactly
    for the queries whose lower-cased text contains one of the twelve
    keywords, [retrieval] exactly for the others, and it answers for every
    query. *)
Theorem detect_query_type_keywords (q : pystr) :
  let keywords :=
    [py "how many"; py "count"; py "average"; py "sum"; py "total";
     py "rows"; py "maximum"; py "minimum"; py "number of";
     py "total number"; py "age"; py "salary"] in
  (detect_query_type q = sql_query <->
     exists k, In k keywords /\ contains k (lower q) = true) /\
  (detect_query_type q = retrieval <->
     forall k, In k keywords -> contains k (lower q) = false) /\
  (detect_query_type q = sql_query \/ detect_query_type q = retrieval).
Proof.
  intros keywords. split; [apply detect_sql_query_iff|].
  split; [apply detect_retrieval_iff|].
  destruct (detect_query_type q); auto.
Qed.

Lemma any_in_false (ks : list pystr) (q : pystr) :
  (forall k, In k ks -> contains k q = false) -> any_in ks q = false.
Proof.
  intros Hall. unfold any_in.
  destruct (existsb _ ks) eqn:E; [|reflexivity].
  apply existsb_exists in E as [k [Hin Hk]]. now rewrite (Hall k Hin) in Hk.
Qed.

Lemma any_in_true (ks : list pystr) (q : pystr) :
  any_in ks q = true -> exists k, In k ks /\ contains k q = true.
Proof. unfold any_in. intros E. now apply existsb_exists in E. Qed.

(** [kw_absent]: a keyword is absent from the text when one of its pieces
    is known to be. *)
Ltac kw_absent :=
  match goal with
  | H : contains ?j ?s = false |- contains ?k ?s = false =>
      apply (@contains_false_sub j k s); [vm_compute; reflexivity | exact H]
  end.

Ltac kws_absent :=
  apply any_in_false;
  let k := fresh "k" in
  let Hk := fresh "Hk" in
  intros k Hk; cbv [In] in Hk;
  repeat (destruct Hk as [<- | Hk]); [kw_absent .. | contradiction].

(** What a query classified [retrieval] does not contain. *)
Lemma retrieval_keywords_absent (q : pystr) :
  detect_query_type q = retrieval ->
  contains (py "how many") (lower q) = false /\
  contains (py "count") (lower q) = false /\
  contains (py "average") (lower q) = false /\
  contains (py "sum") (lower q) = false /\
  contains (py "total") (lower q) = false /\
  contains (py "number of") (lower q) = false /\
  contains (py "age") (lower q) = false.
Proof.
  intros Hd. pose proof (proj1 (detect_retrieval_iff q) Hd) as Hall.
  repeat split; apply Hall; cbv [analytical_keywords In]; tauto.
Qed.

(** (C3, counterexample) "who is the oldest" is classified [retrieval] and
    the resolver answers it with the MAX template. *)
Lemma oldest_reaches_max_template :
  detect_query_type (py "who is the oldest") = retrieval /\
  parse_intent (py "who is the oldest") = CannedSql SQL_MAX (py "maximum age").
Proof. split; vm_compute; reflexivity. Qed.

(** (C3, amended) For a query classified [retrieval], the resolver never
    answers with the COUNT, SUM or AVG template; it answers with the MAX
    template only when the lower-cased query contains "oldest", and with
    the MIN template only when it contains "youngest". *)
Theorem retrieval_aggregate_templates (q sql explain : pystr) :
  detect_query_type q = retrieval ->
  parse_intent q = CannedSql sql explain ->
  sql <> SQL_COUNT /\ sql <> SQL_SUM /\ sql <> SQL_AVG /\
  (sql = SQL_MAX -> contains (py "oldest") (lower q) = true) /\
  (sql = SQL_MIN -> contains (py "youngest") (lower q) = true).
Proof.
  intros Hd.
  destruct (retrieval_keywords_absent q Hd)
    as (Hhow & Hcount & Havg & Hsum & Htotal & Hnum & Hage).
  unfold parse_intent. cbv zeta.
  assert (Hregex : count_regex (lower q) = false) by (unfold count_regex; kws_absent).
  assert (Hsums : any_in [py "sum of age"; py "sum of ages"; py "total age";
                          py "total of ages"; py "sum ages"] (lower q) = false)
    by kws_absent.
  assert (Havgs : any_in [py "average age"; py "avg age"; py "average of ages";
                          py "mean age"] (lower q) = false)
    by kws_absent.
  rewrite Hcount, Hregex, Hsums, Havgs. cbv [orb].
  repeat match goal with
         | |- context [if ?c then _ else _] => destruct c eqn:?
         end;
    intros [= <- <-]; repeat split;
    try (intros E; vm_compute in E; discriminate).
  - intros _.
    match goal with
    | E : any_in [py "max age"; py "maximum age"; py "oldest"] _ = true |- _ =>
        apply any_in_true in E as [k [Hk Hc]]
    end.
    cbv [In] in Hk. destruct Hk as [<- | [<- | [<- | []]]]; [| | exact Hc];
      exfalso; assert (contains (py "age") (lower q) = true)
        by (eapply contains_trans; [|exact Hc]; vm_compute; reflexivity);
      congruence.
  - intros _.
    match goal with
    | E : any_in [py "min age"; py "minimum age"; py "youngest"] _ = true |- _ =>
        apply any_in_true in E as [k [Hk Hc]]
    end.
    cbv [In] in Hk. destruct Hk as [<- | [<- | [<- | []]]]; [| | exact Hc];
      exfalso; assert (contains (py "age") (lower q) = true)
        by (eapply contains_trans; [|exact Hc]; vm_compute; reflexivity);
      congruence.
Qed.

(** ** Routing *)

(** [run_query] takes the branch that [route] names. *)
Lemma run_query_try_by_route {Value : Type} `{ValueEq Value}
    (w : World Value) (q : pystr) :
  run_query_try w q =
  (get_connection w ;;
   conn_cursor w ;;
   match route q with
   | ViaCanned sql _ => canned_branch w sql q
   | ViaRetrieval => retrieval_branch w q
   | ViaGeneratedSql => generated_branch w q
   end).
Proof.
  unfold run_query_try, route.
  destruct (detect_query_type q); [reflexivity|].
  destruct (parse_intent q); reflexivity.
Qed.

Lemma route_retrieval_iff (q : pystr) :
  route q = ViaRetrieval <->
  detect_query_type q = retrieval /\ parse_intent q = NoIntent.
Proof.
  unfold route. destruct (detect_query_type q); [|destruct (parse_intent q)];
    split; try discriminate; try tauto; intros [? ?]; discriminate.
Qed.

(** [rag_pipeline] takes the branch that [route] names, too. *)
Lemma rag_pipeline_by_route {Value : Type} `{ValueEq Value}
    (w : World Value) (q : pystr) :
  rag_pipeline w q =
  (get_connection w ;;
   conn_cursor w ;;
   match route q with
   | ViaCanned sql _ =>
       rag_canned_work w sql q ;; cursor_close w ;; conn_close w
   | ViaRetrieval => rag_retrieval_work w q ;; cursor_close w ;; conn_close w
   | ViaGeneratedSql => rag_generated_work w q ;; cursor_close w ;; conn_close w
   end).
Proof.
  unfold rag_pipeline, route.
  destruct (detect_query_type q); [reflexivity|].
  destruct (parse_intent q); reflexivity.
Qed.

(** (C5) A query whose lower-cased text contains "age" is classified
    [sql_query] (analytical): both entry points take the branch of
    generated SQL for it, so [parse_intent] and its age-listing template
    are not consulted. *)
Theorem age_query_routed_to_generated_sql (q : pystr) :
  contains (py "age") (lower q) = true ->
  detect_query_type q = sql_query /\
  route q = ViaGeneratedSql /\
  (forall e, route q <> ViaCanned SQL_AGES e) /\
  forall (Value : Type) (E : ValueEq Value) (w : World Value),
    run_query_try w q =
      (get_connection w ;; conn_cursor w ;; generated_branch w q) /\
    rag_pipeline w q =
      (get_connection w ;; conn_cursor w ;;
       rag_generated_work w q ;; cursor_close w ;; conn_close w).
Proof.
  intros Hage.
  assert (Hd : detect_query_type q = sql_query).
  { apply detect_sql_query_iff. exists (py "age"). split; [|exact Hage].
    cbv [analytical_keywords In]. tauto. }
  assert (Hr : route q = ViaGeneratedSql) by (unfold route; now rewrite Hd).
  repeat split; trivial.
  - intros e. rewrite Hr. discriminate.
  - now rewrite run_query_try_by_route, Hr.
  - now rewrite rag_pipeline_by_route, Hr.
Qed.

Lemma age_query_routed_to_generated_sql_witness :
  contains (py "age") (lower (py "List the AGE of everyone")) = true /\
  detect_query_type (py "List the AGE of everyone") = sql_query /\
  route (py "List the AGE of everyone") = ViaGeneratedSql.
Proof.
  split; [vm_compute; reflexivity|].
  pose proof (age_query_routed_to_generated_sql (py "List the AGE of everyone"))
    as Hthm.
  destruct Hthm as (Hd & Hr & _); [vm_compute; reflexivity|].
  split; assumption.
Defined.

(** The resolver answers every query whose lower-cased text contains
    "name" with the name-listing template. *)
Lemma parse_intent_name (q : pystr) :
  contains (py "name") (lower q) = true ->
  parse_intent q = CannedSql SQL_NAMES (py "list of names").
Proof.
  intros Hn. unfold parse_intent. cbv zeta.
  unfold any_in at 1. cbn [existsb]. now rewrite Hn.
Qed.

(** (C10) On a query for which the pipeline calls [retrieve_from_db] (the
    resolver found no canned intent), the guard of the name shortcut is
    false: the query does not contain "name", and [retrieve_from_db] is
    the fuzzy search of lines 71-93. *)
Theorem name_shortcut_never_taken (q : pystr) :
  route q = ViaRetrieval ->
  parse_intent q = NoIntent /\
  contains (py "name") (lower q) = false /\
  name_shortcut (lower q) = false /\
  forall (Value : Type) (E : ValueEq Value) (w : World Value),
    retrieve_from_db w q = fuzzy_search w q.
Proof.
  intros Hr. apply route_retrieval_iff in Hr as [_ Hp].
  assert (Hn : contains (py "name") (lower q) = false).
  { destruct (contains (py "name") (lower q)) eqn:Hn; [|reflexivity].
    rewrite (parse_intent_name q Hn) in Hp. discriminate. }
  assert (Hns : contains (py "names") (lower q) = false) by kw_absent.
  assert (Hg : name_shortcut (lower q) = false)
    by (unfold name_shortcut; now rewrite Hn, Hns).
  repeat split; trivial.
  intros Value E w. unfold retrieve_from_db. cbv zeta. now rewrite Hg.
Qed.

Lemma name_shortcut_never_taken_witness :
  route (py "who is Asmi?") = ViaRetrieval /\
  name_shortcut (lower (py "who is Asmi?")) = false.
Proof.
  split; [vm_compute; reflexivity|].
  pose proof (name_shortcut_never_taken (py "who is Asmi?")) as Hthm.
  destruct Hthm as (_ & _ & Hg & _); [vm_compute; reflexivity|].
  exact Hg.
Defined.

Lemma retrieval_aggregate_templates_witness :
  detect_query_type (py "who is the oldest") = retrieval /\
  parse_intent (py "who is the oldest") = CannedSql SQL_MAX (py "maximum age") /\
  SQL_MAX <> SQL_COUNT /\ SQL_MAX <> SQL_SUM /\ SQL_MAX <> SQL_AVG.
Proof.
  split; [vm_compute; reflexivity|]. split; [vm_compute; reflexivity|].
  pose proof (retrieval_aggregate_templates (py "who is the oldest")
                SQL_MAX (py "maximum age")) as Hthm.
  destruct Hthm as (H1 & H2 & H3 & _); [vm_compute; reflexivity ..|].
  repeat split; assumption.
Defined.

(** ** Sanitiser *)

Lemma lstrip_clean (s : pystr) : clean_head (lstrip s) = true.
Proof.
  induction s as [|c s IH]; simpl; [reflexivity|].
  destruct (is_space c) eqn:E; [exact IH | simpl; now rewrite E].
Qed.

Lemma lstrip_id (s : pystr) : clean_head s = true -> lstrip s = s.
Proof.
  destruct s as [|c s]; simpl; [reflexivity|].
  now destruct (is_space c).
Qed.

Lemma lstrip_suffix (s : pystr) : exists pre, s = pre ++ lstrip s.
Proof.
  induction s as [|c s [pre IH]]; simpl.
  - now exists [].
  - destruct (is_space c).
    + exists (c :: pre). simpl. now rewrite <- IH.
    + now exists [].
Qed.

Lemma rstrip_prefix (s : pystr) : exists post, s = rstrip s ++ post.
Proof.
  unfold rstrip. destruct (lstrip_suffix (rev s)) as [pre Hpre].
  exists (rev pre). rewrite <- rev_app_distr, <- Hpre. now rewrite rev_involutive.
Qed.

Lemma rstrip_clean_head (s : pystr) :
  clean_head s = true -> clean_head (rstrip s) = true.
Proof.
  intros Hs. destruct (rstrip_prefix s) as [post Hpost].
  destruct (rstrip s) as [|c r]; [reflexivity|].
  rewrite Hpost in Hs. exact Hs.
Qed.

Lemma strip_stripped (s : pystr) : stripped (strip s) = true.
Proof.
  unfold stripped, strip. apply andb_true_iff. split.
  - apply rstrip_clean_head, lstrip_clean.
  - unfold rstrip. rewrite rev_involutive. apply lstrip_clean.
Qed.

Lemma strip_id (s : pystr) : stripped s = true -> strip s = s.
Proof.
  unfold stripped, strip, rstrip. intros Hs.
  apply andb_true_iff in Hs as [Hh Hl].
  rewrite (lstrip_id s Hh), (lstrip_id (rev s) Hl). apply rev_involutive.
Qed.

(** [strip] only removes characters. *)
Lemma strip_infix (s : pystr) : exists pre post, s = pre ++ strip s ++ post.
Proof.
  unfold strip. destruct (lstrip_suffix s) as [pre Hpre].
  destruct (rstrip_prefix (lstrip s)) as [post Hpost].
  exists pre, post. now rewrite <- Hpost.
Qed.

Lemma strip_In (c : N) (s : pystr) : In c (strip s) -> In c s.
Proof.
  intros Hin. destruct (strip_infix s) as [pre [post Hs]]. rewrite Hs.
  apply in_or_app. right. apply in_or_app. now left.
Qed.

Lemma before_not_In (c : N) (s : pystr) : ~ In c (before c s).
Proof.
  induction s as [|x s IH]; simpl; [tauto|].
  destruct (N.eqb_spec x c); simpl; [tauto|]. intros [Hx | Hin]; auto.
Qed.

Lemma before_app_sep (c : N) (body : pystr) :
  ~ In c body -> before c (body ++ [c]) = body.
Proof.
  induction body as [|x body IH]; simpl; intros Hn.
  - now rewrite N.eqb_refl.
  - destruct (N.eqb_spec x c) as [->|_]; [tauto|].
    rewrite IH; [reflexivity | tauto].
Qed.

Lemma stripped_terminated (body : pystr) :
  stripped body = true -> stripped (body ++ [SEMI]) = true.
Proof.
  unfold stripped. intros Hb. apply andb_true_iff in Hb as [Hh _].
  apply andb_true_iff. split.
  - destruct body; [reflexivity | exact Hh].
  - rewrite rev_app_distr. reflexivity.
Qed.

Lemma lower_char_NL (c : N) : lower_char c = NL -> c = NL.
Proof.
  unfold lower_char, NL.
  destruct (N.leb_spec 65 c), (N.leb_spec c 90); simpl; lia.
Qed.

(** The language tag is only recognised on a text that has a line feed at
    index 3, so [split("\n", 1)[1]] does not raise. *)
Lemma untag_total (t : pystr) : exists t', untag t = Ok t'.
Proof.
  unfold untag. destruct (startswith SQL_TAG (lower t)) eqn:E; [|now exists t].
  change SQL_TAG with [115; 113; 108; NL]%N in E.
  destruct t as [|a [|b [|c [|d t]]]]; cbn [startswith lower map] in E;
    rewrite ?andb_false_r in E; try discriminate E.
  repeat (apply andb_true_iff in E as [? E]).
  repeat match goal with H : (_ =? _)%N = true |- _ => apply N.eqb_eq in H end.
  assert (Hd : d = NL) by (apply lower_char_NL; symmetry; assumption).
  assert (Ha : a <> NL) by (intros ->; discriminate).
  assert (Hb : b <> NL) by (intros ->; discriminate).
  assert (Hc : c <> NL) by (intros ->; discriminate).
  cbn [after].
  destruct (N.eqb_spec a NL); [contradiction|].
  destruct (N.eqb_spec b NL); [contradiction|].
  destruct (N.eqb_spec c NL); [contradiction|].
  destruct (N.eqb_spec d NL); [|contradiction].
  now exists (strip t).
Qed.

Lemma sanitize_shape (x : pystr) :
  exists t, untag (unfence (strip x)) = Ok t /\
            sanitize x = Ok (strip (before SEMI t) ++ [SEMI]).
Proof.
  unfold sanitize. destruct (untag_total (unfence (strip x))) as [t Ht].
  exists t. now rewrite Ht.
Qed.

(** (C8) The sanitiser returns for every input, and what it returns is the
    text left by trimming, fence stripping and tag stripping, cut before
    its first ";" and trimmed, with one ";" appended: the output ends with
    ";" and contains no other ";". *)
Theorem sanitize_single_terminator (x : pystr) :
  exists t body,
    untag (unfence (strip x)) = Ok t /\
    body = strip (before SEMI t) /\
    sanitize x = Ok (body ++ [SEMI]) /\
    ~ In SEMI body /\
    count_occ N.eq_dec (body ++ [SEMI]) SEMI = 1.
Proof.
  destruct (sanitize_shape x) as [t [Ht Hs]].
  exists t, (strip (before SEMI t)).
  assert (Hn : ~ In SEMI (strip (before SEMI t))).
  { intros Hin. apply strip_In in Hin. exact (before_not_In _ _ Hin). }
  repeat split; trivial.
  rewrite count_occ_app, (proj1 (count_occ_not_In N.eq_dec _ _) Hn).
  reflexivity.
Qed.

(** (C4, counterexample) A fence inside a fence: the first pass leaves
    "```sql\nSELECT 1;", which the second pass turns into "SELECT 1;". *)
Lemma sanitize_not_idempotent :
  let x := py "```" ++ [NL] ++ py "```sql" ++ [NL] ++ py "SELECT 1;" ++
           [NL] ++ py "```" ++ [NL] ++ py "```" in
  sanitize x = Ok (py "```sql" ++ [NL] ++ py "SELECT 1;") /\
  sanitize (py "```sql" ++ [NL] ++ py "SELECT 1;") = Ok (py "SELECT 1;") /\
  py "```sql" ++ [NL] ++ py "SELECT 1;" <> py "SELECT 1;".
Proof.
  cbv zeta. repeat split; try (vm_compute; reflexivity).
  intros E. vm_compute in E. discriminate.
Qed.

(** (C4, amended) Sanitising an output of the sanitiser again returns it
    unchanged whenever that output does not itself start with a fence or,
    in lower case, with the language tag line. *)
Theorem sanitize_idempotent_on_plain_output (x y : pystr) :
  sanitize x = Ok y ->
  startswith FENCE y = false ->
  startswith SQL_TAG (lower y) = false ->
  sanitize y = Ok y.
Proof.
  intros Hx Hfence Htag.
  destruct (sanitize_shape x) as [t [_ Hs]]. rewrite Hs in Hx.
  injection Hx as Hy. set (body := strip (before SEMI t)) in *.
  assert (Hb : stripped body = true) by apply strip_stripped.
  assert (Hn : ~ In SEMI body).
  { intros Hin. apply strip_In in Hin. exact (before_not_In _ _ Hin). }
  assert (Hstrip : strip y = y).
  { rewrite <- Hy. apply strip_id, stripped_terminated, Hb. }
  unfold sanitize. rewrite Hstrip. unfold unfence. rewrite Hfence.
  unfold untag. rewrite Htag. rewrite <- Hy at 1.
  rewrite (before_app_sep SEMI body Hn), (strip_id body Hb). now rewrite Hy.
Qed.

Lemma sanitize_idempotent_on_plain_output_witness :
  let x := py "```sql" ++ [NL] ++ py "SELECT COUNT(*) FROM people_info; --" ++
           [NL] ++ py "```" in
  let y := py "SELECT COUNT(*) FROM people_info;" in
  sanitize x = Ok y /\ startswith FENCE y = false /\
  startswith SQL_TAG (lower y) = false /\ sanitize y = Ok y.
Proof.
  cbv zeta. do 3 (split; [vm_compute; reflexivity|]).
  apply (sanitize_idempotent_on_plain_output
           (py "```sql" ++ [NL] ++ py "SELECT COUNT(*) FROM people_info; --" ++
            [NL] ++ py "```"));
    vm_compute; reflexivity.
Defined.

(** ** Reasoning about the monad *)

Section MonadFacts.

Context {Value : Type}.

Local Abbreviation State := (State Value).
Local Abbreviation M := (M Value).

Lemma bind_Ok_inv {A B} (m : M A) (k : A -> M B) (s s' : State) (b : B) :
  bind m k s = (Ok b, s') ->
  exists a s1, m s = (Ok a, s1) /\ k a s1 = (Ok b, s').
Proof.
  unfold bind. destruct (m s) as [[a|e] s1]; [|discriminate].
  intros Hk. now exists a, s1.
Qed.

Lemma bind_Ok {A B} (m : M A) (k : A -> M B) (s s1 : State) (a : A) :
  m s = (Ok a, s1) -> bind m k s = k a s1.
Proof. unfold bind. now intros ->. Qed.

Lemma bind_Raise {A B} (m : M A) (k : A -> M B) (s s1 : State) (e : pystr) :
  m s = (Raise e, s1) -> bind m k s = (Raise e, s1).
Proof. unfold bind. now intros ->. Qed.

Lemma keeps_ret {A X} (f : State -> X) (a : A) : keeps f (ret a : M A).
Proof. intros s. reflexivity. Qed.

Lemma keeps_bind {A B X} (f : State -> X) (m : M A) (k : A -> M B) :
  keeps f m -> (forall a, keeps f (k a)) -> keeps f (bind m k).
Proof.
  intros Hm Hk s. unfold bind. specialize (Hm s).
  destruct (m s) as [[a|e] s1]; simpl in *; [|exact Hm].
  now rewrite Hk.
Qed.

Lemma keeps_try_except {A X} (f : State -> X) (m : M A) (h : pystr -> M A) :
  keeps f m -> (forall e, keeps f (h e)) -> keeps f (try_except m h).
Proof.
  intros Hm Hh s. unfold try_except. specialize (Hm s).
  destruct (m s) as [[a|e] s1]; simpl in *; [exact Hm|].
  now rewrite Hh.
Qed.

Lemma keeps_call {A X} (f : State -> X) (outcome : State -> result A)
    (upd : State -> State) :
  (forall s, f (upd s) = f s) -> keeps f (call outcome upd).
Proof. intros Hu s. apply Hu. Qed.

Lemma keeps_modify {X} (f : State -> X) (upd : State -> State) :
  (forall s, f (upd s) = f s) -> keeps f (modify upd).
Proof. intros Hu s. apply Hu. Qed.

Lemma returns_ret {A} (a : A) : returns (ret a : M A).
Proof. intros s. now exists a. Qed.

Lemma returns_modify (upd : State -> State) : returns (modify upd : M unit).
Proof. intros s. now exists tt. Qed.

Lemma returns_bind {A B} (m : M A) (k : A -> M B) :
  returns m -> (forall a, returns (k a)) -> returns (bind m k).
Proof.
  intros Hm Hk s. unfold bind. destruct (Hm s) as [a Ha].
  destruct (m s) as [r s1]. simpl in Ha. subst r. apply Hk.
Qed.

Lemma returns_try_except {A} (m : M A) (h : pystr -> M A) :
  (forall e, returns (h e)) -> returns (try_except m h).
Proof.
  intros Hh s. unfold try_except.
  destruct (m s) as [[a|e] s1]; [now exists a | apply Hh].
Qed.

End MonadFacts.

(** ** Guarded execution *)

(** (C7) A statement whose lower-cased text does not start with "select"
    is answered with the advisory string and the store is left as it was:
    nothing is sent to the database.  A statement that does start with
    "select" is sent once; [execute_sql] then returns and does not raise:
    the rows, or the formatted message of the exception that [execute] or
    [fetchall] raised. *)
Theorem execute_sql_guarded {Value : Type} (w : World Value) (sql : pystr)
    (s : State Value) :
  if startswith (py "select") (lower sql) then
    exists r,
      fst (execute_sql w sql s) = Ok r /\
      executed (snd (execute_sql w sql s)) = executed s ++ [(sql, [])] /\
      match db_execute w (executed s) (sql, []) with
      | Raise e => r = Message (SQL_ERROR_PREFIX ++ e)
      | Ok _ =>
          match db_fetchall w (executed s ++ [(sql, [])]) with
          | Ok rows => r = Rows rows
          | Raise e => r = Message (SQL_ERROR_PREFIX ++ e)
          end
      end
  else execute_sql w sql s = (Ok (Message ADVISORY), s).
Proof.
  unfold execute_sql.
  destruct (startswith (py "select") (lower sql)); cbn [negb]; [|reflexivity].
  unfold try_except, bind, cursor_execute, cursor_fetchall, call, ret.
  cbv beta.
  change (executed (log_statement (sql, []) s)) with (executed s ++ [(sql, [])]).
  destruct (db_execute w (executed s) (sql, [])) as [u|e].
  - destruct (db_fetchall w (executed s ++ [(sql, [])])) as [rows|e];
      eexists; repeat split; reflexivity.
  - eexists; repeat split; reflexivity.
Qed.

Lemma execute_sql_keeps {Value : Type} {X} (w : World Value)
    (f : State Value -> X) (sql : pystr) :
  (forall st s, f (log_statement st s) = f s) -> keeps f (execute_sql w sql).
Proof.
  intros Hlog. unfold execute_sql.
  destruct (negb _); [apply keeps_ret|].
  apply keeps_try_except; [|intros e; apply keeps_ret].
  apply keeps_bind; [apply keeps_call, Hlog|]. intros _.
  apply keeps_bind; [now apply keeps_call|]. intros rows. apply keeps_ret.
Qed.

Lemma execute_sql_returns {Value : Type} (w : World Value) (sql : pystr) :
  returns (execute_sql w sql).
Proof.
  unfold execute_sql. destruct (negb _); [apply returns_ret|].
  apply returns_try_except. intros e. apply returns_ret.
Qed.

(** ** Retrieval *)

Section RetrievalFacts.

Context {Value : Type} `{ValueEq Value}.
Variable w : World Value.

Local Abbreviation State := (State Value).
Local Abbreviation Row := (Row Value).
Local Abbreviation Dict := (Dict Value).

Lemma key_eqb_eq (a b : Key Value) : key_eqb a b = true <-> a = b.
Proof.
  destruct a as [x|], b as [y|]; simpl; try (split; [discriminate | congruence]).
  - destruct (value_eq_dec x y) as [->|Hne]; split; try congruence; discriminate.
  - tauto.
Qed.

Lemma dict_set_In_key (k x : Key Value) (v : Row) (d : Dict) :
  In x (map fst (dict_set k v d)) -> x = k \/ In x (map fst d).
Proof.
  induction d as [|[k' v'] d IH]; simpl.
  - intros [<-|[]]. now left.
  - destruct (key_eqb k' k); simpl; intros [<-|Hin]; auto.
    destruct (IH Hin); auto.
Qed.

Lemma dict_set_keyed (k : Key Value) (v : Row) (d : Dict) :
  k = row_key v -> keyed d -> keyed (dict_set k v d).
Proof.
  intros Hk. unfold keyed. induction d as [|[k' v'] d IH]; simpl.
  - intros _. split; [repeat constructor; auto | repeat constructor; exact Hk].
  - intros [Hnd Hall]. inversion Hnd as [|? ? Hnotin Hnd']; subst.
    inversion Hall as [|? ? Hhead Hall']; subst. simpl in Hhead.
    destruct (key_eqb k' (row_key v)) eqn:E; simpl.
    + apply key_eqb_eq in E. split; [now constructor|].
      constructor; [exact E | exact Hall'].
    + destruct (IH (conj Hnd' Hall')) as [IHnd IHall].
      split; [|now constructor]. constructor; [|exact IHnd].
      intros Hin. apply dict_set_In_key in Hin as [->|Hin]; [|contradiction].
      assert (key_eqb (row_key v) (row_key v) = true) by now apply key_eqb_eq.
      congruence.
Qed.

Lemma add_rows_keyed (rows : list Row) (d : Dict) :
  keyed d -> keyed (add_rows rows d).
Proof.
  unfold add_rows. revert d. induction rows as [|row rows IH]; simpl; intros d Hd.
  - exact Hd.
  - apply IH. now apply dict_set_keyed.
Qed.

Lemma keyed_values (d : Dict) :
  keyed d -> NoDup (map row_key (dict_values d)).
Proof.
  intros [Hnd Hall]. unfold dict_values. rewrite map_map.
  replace (map (fun kr => row_key (snd kr)) d) with (map fst d); [exact Hnd|].
  apply map_ext_in. intros kr Hin.
  exact (proj1 (Forall_forall _ d) Hall kr Hin).
Qed.

(** The loop sends one statement per token, in order, and keeps the
    dictionary keyed. *)
Lemma search_tokens_Ok (tokens : list pystr) :
  forall (found d : Dict) (s s' : State),
    search_tokens w tokens found s = (Ok d, s') ->
    keyed found ->
    keyed d /\ executed s' = executed s ++ map like_stmt tokens.
Proof.
  induction tokens as [|token rest IH]; intros found d s s' Hrun Hk.
  - injection Hrun as <- <-. split; [exact Hk | now rewrite app_nil_r].
  - cbn [search_tokens] in Hrun.
    apply bind_Ok_inv in Hrun as (u & s1 & Hexec & Hrun).
    apply bind_Ok_inv in Hrun as (rows & s2 & Hfetch & Hrun).
    unfold cursor_execute, call in Hexec. injection Hexec as _ <-.
    unfold cursor_fetchall, call in Hfetch. injection Hfetch as _ <-.
    destruct (IH _ _ _ _ Hrun (add_rows_keyed rows found Hk)) as [Hd Hlog].
    split; [exact Hd|]. rewrite Hlog. cbn [executed log_statement map].
    now rewrite <- app_assoc.
Qed.

Lemma cursor_execute_returns (st : Stmt) :
  db_answers w -> returns (cursor_execute w st).
Proof. intros [He _] s. apply He. Qed.

Lemma cursor_fetchall_returns : db_answers w -> returns (cursor_fetchall w).
Proof. intros [_ Hf] s. apply Hf. Qed.

Lemma search_tokens_returns (tokens : list pystr) (found : Dict) :
  db_answers w -> returns (search_tokens w tokens found).
Proof.
  intros Hdb. revert found.
  induction tokens as [|token rest IH]; intros found; cbn [search_tokens].
  - apply returns_ret.
  - apply returns_bind; [now apply cursor_execute_returns|]. intros _.
    apply returns_bind; [now apply cursor_fetchall_returns|]. intros rows.
    apply IH.
Qed.

Lemma fuzzy_search_returns (q : pystr) :
  db_answers w -> returns (fuzzy_search w q).
Proof.
  intros Hdb. unfold fuzzy_search.
  apply returns_bind; [now apply cursor_execute_returns|]. intros _.
  apply returns_bind; [now apply cursor_fetchall_returns|]. intros [|row rows].
  - apply returns_bind; [now apply search_tokens_returns|].
    intros [|kr found]; apply returns_ret.
  - apply returns_ret.
Qed.

Lemma retrieve_from_db_returns (q : pystr) :
  db_answers w -> returns (retrieve_from_db w q).
Proof.
  intros Hdb. unfold retrieve_from_db. cbv zeta.
  destruct (name_shortcut (lower q)); [|now apply fuzzy_search_returns].
  apply returns_bind; [now apply cursor_execute_returns|]. intros _.
  now apply cursor_fetchall_returns.
Qed.

Lemma str_eqb_eq (a b : pystr) : str_eqb a b = true <-> a = b.
Proof.
  revert b. induction a as [|x a IH]; intros [|y b]; simpl;
    try (split; [discriminate | congruence]); [tauto|].
  rewrite andb_true_iff, N.eqb_eq, IH. split; [intros [-> ->] | intros [= -> ->]]; auto.
Qed.

Lemma in_stopwords_false (t : pystr) :
  in_stopwords t = false <-> ~ In t STOPWORDS.
Proof.
  unfold in_stopwords. split.
  - intros E Hin.
    assert (existsb (str_eqb t) STOPWORDS = true)
      by (apply existsb_exists; exists t; split; [exact Hin | now apply str_eqb_eq]).
    congruence.
  - intros Hn. destruct (existsb (str_eqb t) STOPWORDS) eqn:E; [|reflexivity].
    apply existsb_exists in E as [x [Hin Hx]]. apply str_eqb_eq in Hx. now subst.
Qed.

Lemma forallb_rev {A} (f : A -> bool) (l : list A) :
  forallb f (rev l) = forallb f l.
Proof.
  induction l as [|x l IH]; [reflexivity|].
  simpl. rewrite forallb_app, IH. simpl. rewrite andb_true_r. apply andb_comm.
Qed.

(** The scan returns the maximal runs of word characters. *)
Lemma findall_words_from_Words (s : pystr) :
  forall cur, forallb (is_word w) cur = true ->
              Words w (rev cur ++ s) (findall_words_from w cur s).
Proof.
  induction s as [|c s IH]; intros cur Hcur; cbn [findall_words_from].
  - destruct cur as [|x cur]; [constructor|].
    apply words_word; [|now rewrite forallb_rev|exact I|constructor].
    intros E. apply (f_equal (@List.length N)) in E.
    rewrite length_rev in E. discriminate.
  - destruct (is_word w c) eqn:Hc.
    + replace (rev cur ++ c :: s) with (rev (c :: cur) ++ s)
        by (simpl; now rewrite <- app_assoc).
      apply IH. simpl. now rewrite Hc.
    + assert (Hs : Words w (c :: s) (findall_words_from w [] s))
        by (apply words_skip; [exact Hc | exact (IH [] eq_refl)]).
      destruct cur as [|x cur]; [exact Hs|].
      apply words_word; [|now rewrite forallb_rev|exact Hc|exact Hs].
      intros E. apply (f_equal (@List.length N)) in E.
      rewrite length_rev in E. discriminate.
Qed.

(** Two maximal runs at the front of one text are the same run. *)
Lemma word_prefix_unique (t1 : pystr) :
  forall t2 r1 r2,
    t1 ++ r1 = t2 ++ r2 ->
    forallb (is_word w) t1 = true -> forallb (is_word w) t2 = true ->
    match r1 with [] => True | c :: _ => is_word w c = false end ->
    match r2 with [] => True | c :: _ => is_word w c = false end ->
    t1 = t2 /\ r1 = r2.
Proof.
  induction t1 as [|x t1 IH]; intros [|y t2] r1 r2 E H1 H2 Hr1 Hr2; simpl in *.
  - auto.
  - subst r1. apply andb_true_iff in H2 as [Hy _]. congruence.
  - subst r2. apply andb_true_iff in H1 as [Hx _]. congruence.
  - injection E as -> E. apply andb_true_iff in H1 as [_ H1].
    apply andb_true_iff in H2 as [_ H2].
    destruct (IH _ _ _ E H1 H2 Hr1 Hr2) as [-> ->]. auto.
Qed.

Lemma Words_unique (s : pystr) (ts1 : list pystr) :
  Words w s ts1 -> forall ts2, Words w s ts2 -> ts1 = ts2.
Proof.
  induction 1 as [|c s ts Hc _ IH|t rest ts Hne Ht Hrest _ IH];
    intros ts2 H2.
  - inversion H2 as [| |t' rest' ts' Hne' _ _ _ E]; [reflexivity|].
    destruct t'; [congruence | discriminate].
  - inversion H2 as [|c' s' ts' Hc' H2'|t' rest' ts' Hne' Ht' _ _ E]; subst.
    + now apply IH.
    + destruct t' as [|x t']; [congruence|]. injection E as -> _.
      simpl in Ht'. apply andb_true_iff in Ht' as [Hx _]. congruence.
  - inversion H2 as [E|c' s' ts' Hc' H2' E|t' rest' ts' Hne' Ht' Hrest' H2' E];
      subst.
    + destruct t; [congruence | discriminate].
    + destruct t as [|x t]; [congruence|]. injection E as -> _.
      simpl in Ht. apply andb_true_iff in Ht as [Hx _]. congruence.
    + destruct (word_prefix_unique _ _ _ _ E Ht' Ht Hrest' Hrest) as [-> ->].
      f_equal. now apply IH.
Qed.

(** [re.findall(r"\w+", q)] is the list of the words of [q]. *)
Lemma findall_words_spec (q : pystr) (ws : list pystr) :
  Words w q ws <-> ws = findall_words w q.
Proof.
  pose proof (findall_words_from_Words q [] eq_refl) as Hq.
  split.
  - intros Hws. exact (Words_unique _ _ Hws _ Hq).
  - intros ->. exact Hq.
Qed.

(** The tokens of the fallback are the words of the query that are not
    stopwords and are longer than two characters. *)
Lemma fallback_tokens_spec (q t : pystr) :
  In t (fallback_tokens w q) <->
  In t (findall_words w q) /\ ~ In (lower t) STOPWORDS /\ 2 < List.length t.
Proof.
  unfold fallback_tokens. rewrite filter_In, andb_true_iff, negb_true_iff.
  rewrite in_stopwords_false, Nat.ltb_lt. tauto.
Qed.

(** (C6) When the name shortcut does not apply and the search with the
    whole query returns no row, the fallback searches the words of the
    query (its maximal runs of word characters) that are not stopwords and
    are longer than two characters, one statement per token and in order,
    and nothing else; what [retrieve_from_db] returns holds at most one
    row per key (the value of the first column): a row that several tokens
    match is returned once.  If the database raises on no statement,
    [retrieve_from_db] does return. *)
Theorem token_fallback_deduplicates (q : pystr) (s : State) :
  name_shortcut (lower q) = false ->
  (exists u, db_execute w (executed s) (like_stmt q) = Ok u) ->
  db_fetchall w (executed s ++ [like_stmt q]) = Ok [] ->
  (forall ws, Words w q ws ->
     forall t, In t (fallback_tokens w q) <->
               In t ws /\ ~ In (lower t) STOPWORDS /\ 2 < List.length t) /\
  (forall rows s',
     retrieve_from_db w q s = (Ok rows, s') ->
     executed s' =
       executed s ++ like_stmt q :: map like_stmt (fallback_tokens w q) /\
     NoDup (map row_key rows)) /\
  (db_answers w -> exists rows s', retrieve_from_db w q s = (Ok rows, s')).
Proof.
  intros Hguard [u Hexec] Hfetch.
  split; [intros ws Hws t; apply findall_words_spec in Hws; subst ws;
          apply fallback_tokens_spec|]. split.
  - intros rows s' Hrun. unfold retrieve_from_db in Hrun. cbv zeta in Hrun.
    rewrite Hguard in Hrun. unfold fuzzy_search in Hrun.
    assert (H1 : cursor_execute w (like_stmt q) s
                 = (Ok u, log_statement (like_stmt q) s))
      by (unfold cursor_execute, call; now rewrite Hexec).
    rewrite (bind_Ok _ _ _ _ _ H1) in Hrun.
    assert (H2 : cursor_fetchall w (log_statement (like_stmt q) s)
                 = (Ok [], log_statement (like_stmt q) s))
      by (unfold cursor_fetchall, call; cbn [executed log_statement];
          now rewrite Hfetch).
    rewrite (bind_Ok _ _ _ _ _ H2) in Hrun.
    apply bind_Ok_inv in Hrun as (found & s2 & Hloop & Hret).
    assert (Hk0 : keyed (@nil (Key Value * Row)))
      by (split; [apply NoDup_nil | apply Forall_nil]).
    destruct (search_tokens_Ok _ _ _ _ _ Hloop Hk0) as [Hk Hlog].
    cbn [executed log_statement] in Hlog.
    destruct found as [|kr found]; injection Hret as <- <-.
    + split; [now rewrite Hlog, <- app_assoc | constructor].
    + split; [now rewrite Hlog, <- app_assoc | exact (keyed_values _ Hk)].
  - intros Hdb. destruct (retrieve_from_db_returns q Hdb s) as [rows Hrows].
    destruct (retrieve_from_db w q s) as [r s'] eqn:E. simpl in Hrows. subst r.
    now exists rows, s'.
Qed.

End RetrievalFacts.

(** ** The orchestrator *)

Section OrchestratorFacts.

Context {Value : Type} `{ValueEq Value}.
Variable w : World Value.

Local Abbreviation State := (State Value).
Local Abbreviation M := (M Value).

Lemma resources_inert : inert (resources : State -> _).
Proof. repeat split. Qed.

Lemma search_tokens_keeps {X} (f : State -> X) (tokens : list pystr)
    (found : Dict Value) :
  (forall st s, f (log_statement st s) = f s) ->
  keeps f (search_tokens w tokens found).
Proof.
  intros Hlog. revert found.
  induction tokens as [|token rest IH]; intros found; cbn [search_tokens].
  - apply keeps_ret.
  - apply keeps_bind; [apply keeps_call, Hlog|]. intros _.
    apply keeps_bind; [now apply keeps_call|]. intros rows. apply IH.
Qed.

Lemma retrieve_from_db_keeps {X} (f : State -> X) (q : pystr) :
  (forall st s, f (log_statement st s) = f s) ->
  keeps f (retrieve_from_db w q).
Proof.
  intros Hlog. unfold retrieve_from_db, fuzzy_search. cbv zeta.
  destruct (name_shortcut (lower q)).
  - apply keeps_bind; [apply keeps_call, Hlog|]. intros _. now apply keeps_call.
  - apply keeps_bind; [apply keeps_call, Hlog|]. intros _.
    apply keeps_bind; [now apply keeps_call|]. intros [|row rows].
    + apply keeps_bind; [now apply search_tokens_keeps|].
      intros [|kr found]; apply keeps_ret.
    + apply keeps_ret.
Qed.

Lemma when_rows_explain_keeps {X} (f : State -> X) (q : pystr)
    (result : SqlResult Value) :
  inert f ->
  keeps f (when_rows result (fun rows =>
             answer <- explain_sql_result w rows q ;;
             modify (with_out (put_model_answer answer)))).
Proof.
  intros (_ & _ & _ & _ & Ha).
  destruct result as [rows|msg]; [|apply keeps_ret].
  apply keeps_bind; [now apply keeps_call|]. intros answer.
  apply keeps_modify, Ha.
Qed.

Lemma canned_work_keeps {X} (f : State -> X) (sql q : pystr) :
  inert f -> keeps f (canned_work w sql q).
Proof.
  intros Hf. pose proof Hf as (Hlog & Hg & Hs & _). unfold canned_work.
  apply keeps_bind; [apply keeps_modify, Hg|]. intros _.
  apply keeps_bind; [apply execute_sql_keeps, Hlog|]. intros result.
  apply keeps_bind; [apply keeps_modify, Hs|]. intros _.
  now apply when_rows_explain_keeps.
Qed.

Lemma retrieval_work_keeps {X} (f : State -> X) (q : pystr) :
  inert f -> keeps f (retrieval_work w q).
Proof.
  intros (Hlog & _ & _ & Hr & Ha). unfold retrieval_work.
  apply keeps_bind; [apply retrieve_from_db_keeps, Hlog|].
  intros [|row rows]; [apply keeps_modify, Ha|].
  apply keeps_bind; [apply keeps_modify, Hr|]. intros _.
  apply keeps_bind; [now apply keeps_call|]. intros answer.
  apply keeps_modify, Ha.
Qed.

Lemma generated_work_keeps {X} (f : State -> X) (q : pystr) :
  inert f -> keeps f (generated_work w q).
Proof.
  intros Hf. pose proof Hf as (Hlog & Hg & Hs & _). unfold generated_work.
  apply keeps_bind; [now apply keeps_call|]. intros sql.
  apply keeps_bind; [apply keeps_modify, Hg|]. intros _.
  apply keeps_bind; [apply execute_sql_keeps, Hlog|]. intros result.
  apply keeps_bind; [apply keeps_modify, Hs|]. intros _.
  now apply when_rows_explain_keeps.
Qed.

Lemma routed_work_keeps {X} (f : State -> X) (q : pystr) :
  inert f -> keeps f (routed_work w q).
Proof.
  intros Hf. unfold routed_work. destruct (route q).
  - now apply canned_work_keeps.
  - now apply retrieval_work_keeps.
  - now apply generated_work_keeps.
Qed.

(** Every path through the [try] is: acquire, work, release. *)
Lemma run_query_try_shape (q : pystr) :
  run_query_try w q =
  (get_connection w ;; conn_cursor w ;;
   routed_work w q ;; cursor_close w ;; conn_close w).
Proof.
  rewrite run_query_try_by_route. unfold routed_work.
  destruct (route q); reflexivity.
Qed.

Lemma error_field_inert : inert (error_field : State -> _).
Proof. repeat split. Qed.

Lemma get_connection_spec (s : State) :
  (exists u, get_connection_outcome w = Ok u /\
             get_connection w s = (Ok tt, note_conn_opened s)) \/
  (exists e, get_connection_outcome w = Raise e /\
             get_connection w s = (Raise e, s)).
Proof.
  unfold get_connection. destruct (get_connection_outcome w) as [u|e].
  - left. now exists u.
  - right. now exists e.
Qed.

Lemma conn_cursor_spec (s : State) :
  (exists u, cursor_outcome w = Ok u /\
             conn_cursor w s = (Ok tt, note_cursor_opened s)) \/
  (exists e, cursor_outcome w = Raise e /\
             conn_cursor w s = (Raise e, s)).
Proof.
  unfold conn_cursor. destruct (cursor_outcome w) as [u|e].
  - left. now exists u.
  - right. now exists e.
Qed.

Lemma get_connection_keeps {X} (f : State -> X) :
  (forall s, f (note_conn_opened s) = f s) -> keeps f (get_connection w).
Proof.
  intros Hf s. destruct (get_connection_spec s) as [(u & _ & ->)|(e & _ & ->)];
    [apply Hf | reflexivity].
Qed.

Lemma conn_cursor_keeps {X} (f : State -> X) :
  (forall s, f (note_cursor_opened s) = f s) -> keeps f (conn_cursor w).
Proof.
  intros Hf s. destruct (conn_cursor_spec s) as [(u & _ & ->)|(e & _ & ->)];
    [apply Hf | reflexivity].
Qed.

(** The [try] never assigns [out["error"]]. *)
Lemma run_query_try_keeps_error (q : pystr) :
  keeps error_field (run_query_try w q).
Proof.
  rewrite run_query_try_shape.
  apply keeps_bind; [now apply get_connection_keeps|]. intros _.
  apply keeps_bind; [now apply conn_cursor_keeps|]. intros _.
  apply keeps_bind; [apply routed_work_keeps, error_field_inert|]. intros _.
  apply keeps_bind; [now apply keeps_call|]. intros _.
  now apply keeps_call.
Qed.

Lemma returns_call {A} (outcome : State -> result A) (upd : State -> State) :
  (forall s, exists a, outcome s = Ok a) -> returns (call outcome upd).
Proof. intros Ho s. apply Ho. Qed.

Lemma generate_sql_returns (q : pystr) :
  (forall q, exists t, gemini_sql_text w q = Ok t) ->
  returns (generate_sql w q).
Proof.
  intros Hg. apply returns_call. intros _. destruct (Hg q) as [t ->].
  destruct (sanitize_shape t) as [t' [_ ->]]. eauto.
Qed.

Lemma when_rows_explain_returns (q : pystr) (result : SqlResult Value) :
  (forall rows q, exists t, gemini_explanation w rows q = Ok t) ->
  returns (when_rows result (fun rows =>
             answer <- explain_sql_result w rows q ;;
             modify (with_out (put_model_answer answer)))).
Proof.
  intros He. destruct result as [rows|msg]; [|apply returns_ret].
  apply returns_bind; [apply returns_call; intros _; apply He|].
  intros answer. apply returns_modify.
Qed.

Lemma routed_work_returns (q : pystr) :
  no_collaborator_raises w -> returns (routed_work w q).
Proof.
  intros (_ & _ & Hdb & _ & _ & Hg & He & Ha).
  unfold routed_work. destruct (route q).
  - unfold canned_work.
    apply returns_bind; [apply returns_modify|]. intros _.
    apply returns_bind; [apply execute_sql_returns|]. intros result.
    apply returns_bind; [apply returns_modify|]. intros _.
    now apply when_rows_explain_returns.
  - unfold retrieval_work.
    apply returns_bind; [now apply retrieve_from_db_returns|].
    intros [|row rows]; [apply returns_modify|].
    apply returns_bind; [apply returns_modify|]. intros _.
    apply returns_bind; [apply returns_call; intros _; apply Ha|].
    intros answer. apply returns_modify.
  - unfold generated_work.
    apply returns_bind; [now apply generate_sql_returns|]. intros sql.
    apply returns_bind; [apply returns_modify|]. intros _.
    apply returns_bind; [apply execute_sql_returns|]. intros result.
    apply returns_bind; [apply returns_modify|]. intros _.
    now apply when_rows_explain_returns.
Qed.

Lemma run_query_try_returns (q : pystr) :
  no_collaborator_raises w -> returns (run_query_try w q).
Proof.
  intros Hq. pose proof Hq as ([u Hc] & [u' Hcur] & _ & Hcc & Hco & _).
  rewrite run_query_try_shape.
  apply returns_bind.
  { intros s. unfold get_connection. rewrite Hc. now exists tt. }
  intros _. apply returns_bind.
  { intros s. unfold conn_cursor. rewrite Hcur. now exists tt. }
  intros _. apply returns_bind; [now apply routed_work_returns|].
  intros _. apply returns_bind; [apply returns_call; intros _; exact Hcc|].
  intros _. apply returns_call. intros _. exact Hco.
Qed.

(** (C1, amended) [run_query] sets [error] only when an exception escaped
    the [try]: if no collaborator raises, [error] is [None]; and the
    message stored is that of the exception.  The fields assigned before
    the exception are not discarded: the record returned is [out] as the
    exception left it, with [error] added. *)
Theorem run_query_error_keeps_partial_results (q : pystr) (s : State) :
  (no_collaborator_raises w -> error (fst (run_query w q s)) = None) /\
  match run_query_try w q (with_out (fun _ => empty_result) s) with
  | (Ok _, s') =>
      fst (run_query w q s) = out s' /\ error (out s') = None
  | (Raise e, s') =>
      fst (run_query w q s) = put_error e (out s') /\ error (out s') = None
  end.
Proof.
  pose proof (run_query_try_keeps_error q (with_out (fun _ => empty_result) s))
    as Hkeep.
  unfold error_field in Hkeep. cbn [with_out out empty_result error] in Hkeep.
  split.
  - intros Hquiet.
    destruct (run_query_try_returns q Hquiet (with_out (fun _ => empty_result) s))
      as [u Hu].
    unfold run_query, try_except.
    destruct (run_query_try w q (with_out (fun _ => empty_result) s))
      as [r s'] eqn:E.
    simpl in Hu, Hkeep. subst r. exact Hkeep.
  - unfold run_query, try_except.
    destruct (run_query_try w q (with_out (fun _ => empty_result) s))
      as [[u|e] s'] eqn:E; simpl in Hkeep; split; auto.
Qed.

(** What a completed [try] did to the resources: one acquisition and one
    [close] of each. *)
Lemma run_query_try_Ok_resources (q : pystr) (s s' : State) (u : unit) :
  run_query_try w q s = (Ok u, s') ->
  resources s' =
  (S (conn_opened s), S (cursor_opened s),
   S (cursor_closed s), S (conn_closed s)).
Proof.
  rewrite run_query_try_shape. intros Hrun.
  apply bind_Ok_inv in Hrun as (u1 & s1 & H1 & Hrun).
  apply bind_Ok_inv in Hrun as (u2 & s2 & H2 & Hrun).
  apply bind_Ok_inv in Hrun as (u3 & s3 & H3 & Hrun).
  apply bind_Ok_inv in Hrun as (u4 & s4 & H4 & H5).
  destruct (get_connection_spec s) as [(? & _ & E1)|(? & _ & E1)];
    rewrite E1 in H1; [|discriminate]. injection H1 as _ <-.
  destruct (conn_cursor_spec (note_conn_opened s)) as [(? & _ & E2)|(? & _ & E2)];
    rewrite E2 in H2; [|discriminate]. injection H2 as _ <-.
  pose proof (routed_work_keeps resources q resources_inert
                (note_cursor_opened (note_conn_opened s))) as Hkeep.
  rewrite H3 in Hkeep. simpl in Hkeep.
  unfold cursor_close, call in H4. injection H4 as _ <-.
  unfold conn_close, call in H5. injection H5 as _ <-.
  unfold resources in *. cbn in *. congruence.
Qed.

(** (X1) A run of [run_query] that reports no error acquired one
    connection and one cursor and closed each of them once. *)
Theorem run_query_releases_once_without_error (q : pystr) (s : State) :
  error (fst (run_query w q s)) = None ->
  resources (snd (run_query w q s)) =
  (S (conn_opened s), S (cursor_opened s),
   S (cursor_closed s), S (conn_closed s)).
Proof.
  unfold run_query, try_except.
  destruct (run_query_try w q (with_out (fun _ => empty_result) s))
    as [[u|e] s'] eqn:E; cbn [fst snd].
  - intros _. now rewrite (run_query_try_Ok_resources _ _ _ _ E).
  - cbn. discriminate.
Qed.

(** (X2) An exception raised by the work of a branch reaches the handler
    of [run_query] with the connection and the cursor acquired and neither
    of them closed: no path from the handler calls [close]. *)
Theorem run_query_leaks_when_work_raises (q : pystr) (s s' : State) (e : pystr) :
  routed_work w q (note_cursor_opened (note_conn_opened
                   (with_out (fun _ => empty_result) s))) = (Raise e, s') ->
  (exists u, get_connection_outcome w = Ok u) ->
  (exists u, cursor_outcome w = Ok u) ->
  error (fst (run_query w q s)) = Some e /\
  resources (snd (run_query w q s)) =
  (S (conn_opened s), S (cursor_opened s), cursor_closed s, conn_closed s).
Proof.
  intros Hwork [u Hc] [u' Hcur].
  pose proof (routed_work_keeps resources q resources_inert
                (note_cursor_opened (note_conn_opened
                   (with_out (fun _ => empty_result) s)))) as Hres.
  pose proof (routed_work_keeps error_field q error_field_inert
                (note_cursor_opened (note_conn_opened
                   (with_out (fun _ => empty_result) s)))) as Herr.
  rewrite Hwork in Hres, Herr. cbn [snd] in Hres, Herr.
  assert (Hrun : run_query_try w q (with_out (fun _ => empty_result) s)
                 = (Raise e, s')).
  { rewrite run_query_try_shape.
    erewrite bind_Ok; [|unfold get_connection; rewrite Hc; reflexivity].
    erewrite bind_Ok; [|unfold conn_cursor; rewrite Hcur; reflexivity].
    now apply bind_Raise. }
  unfold run_query, try_except. rewrite Hrun. cbn [fst snd modify].
  split; [reflexivity|]. exact Hres.
Qed.

End OrchestratorFacts.

(** ** The pipeline on the sample environment *)

(** (C1, counterexample) "how many people are there", with a language
    model that fails when asked to explain the result: the record
    returned carries [error] together with the generated SQL and its
    rows. *)
Lemma error_returned_with_partial_results :
  let r := fst (run_query Sample.world_explainer_down
                  (py "how many people are there") initial_state) in
  error r = Some (py "429 quota exceeded") /\
  generated_sql r = Some SQL_COUNT /\
  sql_result r = Some (Rows [[Sample.CInt 2]]).
Proof. cbv zeta. repeat split; vm_compute; reflexivity. Qed.

(** (C2, the defect) "how many people are there", with a language model
    that fails on every call: [run_query] returns the error record, and
    [rag_pipeline] raises, with the connection and the cursor acquired and
    [close] called on neither. *)
Theorem connection_leaked_on_exception :
  let q := py "how many people are there" in
  let '(r, s) := run_query Sample.world_model_down q initial_state in
  let '(r', s') := rag_pipeline Sample.world_model_down q initial_state in
  error r = Some (py "API key not valid") /\
  resources s = (1, 1, 0, 0) /\
  r' = Raise (py "API key not valid") /\
  resources s' = (1, 1, 0, 0).
Proof. vm_compute. repeat split; reflexivity. Qed.

Lemma token_fallback_deduplicates_witness :
  let q := py "who is Asmi the Engineer?" in
  name_shortcut (lower q) = false /\
  db_execute Sample.world [] (like_stmt q) = Ok tt /\
  db_fetchall Sample.world [like_stmt q] = Ok [] /\
  fallback_tokens Sample.world q = [py "Asmi"; py "Engineer"] /\
  fst (retrieve_from_db Sample.world q initial_state) = Ok [Sample.asmi] /\
  NoDup (map row_key [Sample.asmi]).
Proof.
  cbv zeta. do 5 (split; [vm_compute; reflexivity|]).
  pose proof (token_fallback_deduplicates Sample.world
                (py "who is Asmi the Engineer?") initial_state) as Hthm.
  destruct Hthm as (_ & Hrows & _);
    [vm_compute; reflexivity | exists tt; reflexivity | vm_compute; reflexivity |].
  destruct (retrieve_from_db Sample.world (py "who is Asmi the Engineer?")
              initial_state) as [r s'] eqn:E.
  assert (Hr : r = Ok [Sample.asmi])
    by (change r with (fst (r, s')); rewrite <- E; vm_compute; reflexivity).
  subst r. exact (proj2 (Hrows _ _ eq_refl)).
Defined.

Lemma run_query_releases_once_without_error_witness :
  error (fst (run_query Sample.world (py "how many people are there")
                initial_state)) = None /\
  resources (snd (run_query Sample.world (py "how many people are there")
                    initial_state)) = (1, 1, 1, 1).
Proof.
  split; [vm_compute; reflexivity|].
  apply (run_query_releases_once_without_error Sample.world
           (py "how many people are there") initial_state).
  vm_compute; reflexivity.
Defined.

Lemma run_query_leaks_when_work_raises_witness :
  error (fst (run_query Sample.world_explainer_down
                (py "list names") initial_state))
    = Some (py "429 quota exceeded") /\
  resources (snd (run_query Sample.world_explainer_down
                    (py "list names") initial_state)) = (1, 1, 0, 0).
Proof.
  refine (run_query_leaks_when_work_raises Sample.world_explainer_down
            (py "list names") initial_state
            (snd (routed_work Sample.world_explainer_down (py "list names")
                    (note_cursor_opened (note_conn_opened
                       (with_out (fun _ => empty_result) initial_state)))))
            (py "429 quota exceeded") _ _ _).
  - vm_compute; reflexivity.
  - exists tt; reflexivity.
  - exists tt; reflexivity.
Defined.

(** The fenced answer of the specification's example is reduced to
    the statement alone. *)
Theorem sanitize_fenced_example :
  sanitize (py "```sql" ++ [NL] ++ py "SELECT 1;" ++ [NL] ++ py "```")
  = Ok (py "SELECT 1;").
Proof. vm_compute; reflexivity. Qed.

(** The scenario "who is Asmi?": classified [retrieval], no canned
    intent, and the fallback searches the single token "Asmi". *)
Theorem who_is_asmi_scenario :
  detect_query_type (py "who is Asmi?") = retrieval /\
  parse_intent (py "who is Asmi?") = NoIntent /\
  route (py "who is Asmi?") = ViaRetrieval /\
  fallback_tokens Sample.world (py "who is Asmi?") = [py "Asmi"].
Proof. repeat split; vm_compute; reflexivity. Qed.

(** ** Statements sent to the database *)

Section TrafficFacts.

Context {Value : Type} `{ValueEq Value}.
Variable w : World Value.

Local Abbreviation State := (State Value).
Local Abbreviation M := (M Value).

Lemma sends_weaken {A} (m : M A) (P Q : Stmt -> Prop) (n n' : nat) :
  (forall st, P st -> Q st) -> n <= n' -> sends m P n -> sends m Q n'.
Proof.
  intros HPQ Hn Hm s. destruct (Hm s) as (new & Hnew & Hall & Hlen).
  exists new. repeat split; [exact Hnew | | lia].
  eapply Forall_impl; [exact HPQ | exact Hall].
Qed.

(** A computation that sends nothing meets every bound. *)
Lemma sends_nothing {A} (m : M A) (P Q : Stmt -> Prop) (n : nat) :
  sends m P 0 -> sends m Q n.
Proof.
  intros Hm s. destruct (Hm s) as (new & Hnew & _ & Hlen).
  destruct new; [|cbn in Hlen; lia].
  exists []. repeat split; [exact Hnew | constructor | cbn; lia].
Qed.

Lemma sends_keeps {A} (m : M A) (P : Stmt -> Prop) :
  keeps (fun s : State => executed s) m -> sends m P 0.
Proof.
  intros Hk s. exists []. rewrite app_nil_r.
  repeat split; [apply Hk | constructor | reflexivity].
Qed.

Lemma sends_bind {A B} (m : M A) (k : A -> M B) (P : Stmt -> Prop)
    (n1 n2 : nat) :
  sends m P n1 -> (forall a, sends (k a) P n2) -> sends (bind m k) P (n1 + n2).
Proof.
  intros Hm Hk s. unfold bind. destruct (Hm s) as (new1 & E1 & A1 & L1).
  destruct (m s) as [[a|e] s1]; cbn [snd] in *.
  - destruct (Hk a s1) as (new2 & E2 & A2 & L2).
    exists (new1 ++ new2). rewrite E2, E1, app_assoc.
    repeat split; [now apply Forall_app | rewrite length_app; lia].
  - exists new1. repeat split; [exact E1 | exact A1 | lia].
Qed.

Lemma sends_try_except {A} (m : M A) (h : pystr -> M A) (P : Stmt -> Prop)
    (n1 n2 : nat) :
  sends m P n1 -> (forall e, sends (h e) P n2) ->
  sends (try_except m h) P (n1 + n2).
Proof.
  intros Hm Hh s. unfold try_except. destruct (Hm s) as (new1 & E1 & A1 & L1).
  destruct (m s) as [[a|e] s1]; cbn [snd] in *.
  - exists new1. repeat split; [exact E1 | exact A1 | lia].
  - destruct (Hh e s1) as (new2 & E2 & A2 & L2).
    exists (new1 ++ new2). rewrite E2, E1, app_assoc.
    repeat split; [now apply Forall_app | rewrite length_app; lia].
Qed.

Lemma sends_cursor_execute (st : Stmt) (P : Stmt -> Prop) :
  P st -> sends (cursor_execute w st) P 1.
Proof.
  intros Hst s. exists [st]. repeat split; [now repeat constructor | reflexivity].
Qed.

Lemma sends_quiet_call {A} (outcome : State -> result A) (P : Stmt -> Prop) :
  sends (call outcome (fun s => s)) P 0.
Proof. apply sends_keeps. now apply keeps_call. Qed.

Lemma sends_modify (upd : State -> State) (P : Stmt -> Prop) :
  (forall s, executed (upd s) = executed s) -> sends (modify upd) P 0.
Proof. intros Hu. apply sends_keeps. now apply keeps_modify. Qed.

Lemma sends_ret {A} (a : A) (P : Stmt -> Prop) : sends (ret a : M A) P 0.
Proof. apply sends_keeps, keeps_ret. Qed.

(** [execute_sql] sends its statement at most once, and only a statement
    that passed the guard. *)
Lemma execute_sql_sends (sql : pystr) :
  sends (execute_sql w sql)
        (fun st => st = (sql, []) /\
                   startswith (py "select") (lower sql) = true) 1.
Proof.
  unfold execute_sql.
  destruct (startswith (py "select") (lower sql)) eqn:E; cbn [negb].
  - change 1 with (1 + 0 + 0 + 0).
    apply sends_try_except; [|intros e; apply sends_ret].
    apply sends_bind; [now apply sends_cursor_execute|]. intros _.
    change 0 with (0 + 0).
    apply sends_bind; [apply sends_quiet_call|]. intros rows. apply sends_ret.
  - apply (sends_nothing _ (fun _ => True)), sends_ret.
Qed.

Lemma search_tokens_sends (tokens : list pystr) :
  forall found,
    sends (search_tokens w tokens found)
          (fun st => exists t, In t tokens /\ st = like_stmt t)
          (List.length tokens).
Proof.
  induction tokens as [|token rest IH]; intros found; cbn [search_tokens].
  - apply sends_ret.
  - change (List.length (token :: rest)) with (1 + (0 + List.length rest)).
    apply sends_bind.
    { apply sends_cursor_execute. exists token. split; [now left | reflexivity]. }
    intros _. apply sends_bind; [apply sends_quiet_call|]. intros rows.
    eapply sends_weaken; [| |apply IH]; [|lia].
    intros st (t & Hin & ->). exists t. split; [now right | reflexivity].
Qed.

Lemma fuzzy_search_sends (q : pystr) :
  sends (fuzzy_search w q)
        (fun st => st = like_stmt q \/
                   exists t, In t (fallback_tokens w q) /\ st = like_stmt t)
        (S (List.length (fallback_tokens w q))).
Proof.
  unfold fuzzy_search.
  replace (S (List.length (fallback_tokens w q)))
    with (1 + (0 + (List.length (fallback_tokens w q) + 0))) by lia.
  apply sends_bind; [apply sends_cursor_execute; now left|]. intros _.
  apply sends_bind; [apply sends_quiet_call|]. intros [|row rows].
  - apply sends_bind.
    + eapply sends_weaken; [| |apply search_tokens_sends]; [|lia].
      intros st Hst. now right.
    + intros [|kr found]; apply sends_ret.
  - apply (sends_nothing _ (fun _ => True)), sends_ret.
Qed.

(** A query routed to retrieval does not contain "name". *)
Lemma route_retrieval_no_shortcut (q : pystr) :
  route q = ViaRetrieval -> name_shortcut (lower q) = false.
Proof.
  intros Hr. apply route_retrieval_iff in Hr as [_ Hp].
  assert (Hn : contains (py "name") (lower q) = false).
  { destruct (contains (py "name") (lower q)) eqn:Hn; [|reflexivity].
    rewrite (parse_intent_name q Hn) in Hp. discriminate. }
  assert (Hns : contains (py "names") (lower q) = false) by kw_absent.
  unfold name_shortcut. now rewrite Hn, Hns.
Qed.

Lemma when_rows_sends (result : SqlResult Value) (k : list (Row Value) -> M unit)
    (P : Stmt -> Prop) :
  (forall rows, sends (k rows) P 0) -> sends (when_rows result k) P 0.
Proof. intros Hk. destruct result; [apply Hk | apply sends_ret]. Qed.

(** The statement of a branch that executes one SQL text: both entry
    points, with their own bookkeeping before and after. *)
Lemma one_statement_sends (sql : pystr) (pre : M unit)
    (post : SqlResult Value -> M unit) (P : Stmt -> Prop) :
  sends pre P 0 -> (forall r, sends (post r) P 0) ->
  (startswith (py "select") (lower sql) = true -> P (sql, [])) ->
  sends (pre ;; result <- execute_sql w sql ;; post result) P 1.
Proof.
  intros Hpre Hpost HP. change 1 with (0 + (1 + 0)).
  apply sends_bind; [exact Hpre|]. intros _.
  apply sends_bind; [|exact Hpost].
  eapply sends_weaken; [| |apply execute_sql_sends]; [|lia].
  intros st [-> Hsel]. now apply HP.
Qed.

Lemma sends_explain_then (q : pystr) (k : pystr -> M unit) (P : Stmt -> Prop)
    (result : SqlResult Value) :
  (forall a, sends (k a) P 0) ->
  sends (when_rows result (fun rows =>
           answer <- explain_sql_result w rows q ;; k answer)) P 0.
Proof.
  intros Hk. apply when_rows_sends. intros rows. change 0 with (0 + 0).
  apply sends_bind; [apply sends_quiet_call | exact Hk].
Qed.

Lemma canned_work_sends (sql q : pystr) (P : Stmt -> Prop) :
  (startswith (py "select") (lower sql) = true -> P (sql, [])) ->
  sends (canned_work w sql q) P 1 /\ sends (rag_canned_work w sql q) P 1.
Proof.
  intros HP. split.
  - unfold canned_work. apply one_statement_sends; [now apply sends_modify| |exact HP].
    intros r. change 0 with (0 + 0).
    apply sends_bind; [now apply sends_modify|]. intros _.
    apply sends_explain_then. intros a. now apply sends_modify.
  - unfold rag_canned_work.
    apply one_statement_sends; [now apply sends_modify| |exact HP].
    intros r. change 0 with (0 + (0 + 0)).
    apply sends_bind; [now apply sends_modify|]. intros _.
    apply sends_bind; [now apply sends_modify|]. intros _.
    apply sends_explain_then. intros a. change 0 with (0 + 0).
    apply sends_bind; [now apply sends_modify|]. intros _. now apply sends_modify.
Qed.

Lemma generate_sql_then_sends (q : pystr) (k : pystr -> M unit)
    (P : Stmt -> Prop) (n : nat) :
  (forall body, ~ In SEMI body -> sends (k (body ++ [SEMI])) P n) ->
  sends (sql <- generate_sql w q ;; k sql) P n.
Proof.
  intros Hk s. unfold bind, generate_sql, call.
  destruct (gemini_sql_text w q) as [text|e].
  - destruct (sanitize_shape text) as [t [_ ->]]. apply Hk.
    intros Hin. apply strip_In in Hin. exact (before_not_In _ _ Hin).
  - exists []. rewrite app_nil_r. repeat split; [constructor | cbn; lia].
Qed.

Lemma retrieval_work_sends (q : pystr) :
  route q = ViaRetrieval ->
  let P := fun st => st = like_stmt q \/
                     exists t, In t (fallback_tokens w q) /\ st = like_stmt t in
  let n := S (List.length (fallback_tokens w q)) in
  sends (retrieval_work w q) P n /\ sends (rag_retrieval_work w q) P n.
Proof.
  intros Hr P n.
  assert (Hret : sends (retrieve_from_db w q) P n).
  { unfold retrieve_from_db. cbv zeta.
    rewrite (route_retrieval_no_shortcut q Hr). apply fuzzy_search_sends. }
  split.
  - unfold retrieval_work. replace n with (n + (0 + (0 + 0))) by lia.
    apply sends_bind; [exact Hret|]. intros [|row rows].
    + apply (sends_nothing _ (fun _ => True)). now apply sends_modify.
    + apply sends_bind; [now apply sends_modify|]. intros _.
      apply sends_bind; [apply sends_quiet_call|]. intros a.
      now apply sends_modify.
  - unfold rag_retrieval_work. replace n with (n + (0 + (0 + (0 + (0 + 0))))) by lia.
    apply sends_bind; [exact Hret|]. intros [|row rows].
    + apply (sends_nothing _ (fun _ => True)). now apply sends_modify.
    + apply sends_bind; [now apply sends_modify|]. intros _.
      apply sends_bind; [now apply sends_modify|]. intros _.
      apply sends_bind; [apply sends_quiet_call|]. intros a.
      apply sends_bind; [now apply sends_modify|]. intros _.
      now apply sends_modify.
Qed.

Lemma generated_work_sends (q : pystr) :
  let P := fun st => exists body,
             st = (body ++ [SEMI], []) /\ ~ In SEMI body /\
             startswith (py "select") (lower (body ++ [SEMI])) = true in
  sends (generated_work w q) P 1 /\ sends (rag_generated_work w q) P 1.
Proof.
  intros P. split.
  - unfold generated_work. apply generate_sql_then_sends. intros body Hbody.
    apply (canned_work_sends (body ++ [SEMI]) q P). intros Hsel. now exists body.
  - unfold rag_generated_work. apply generate_sql_then_sends. intros body Hbody.
    apply (canned_work_sends (body ++ [SEMI]) q P). intros Hsel. now exists body.
Qed.

(** Acquire, work, release: only the work sends statements. *)
Lemma framed_work_sends (work : M unit) (P : Stmt -> Prop) (n : nat) :
  sends work P n ->
  sends (get_connection w ;; conn_cursor w ;; work ;;
         cursor_close w ;; conn_close w) P n.
Proof.
  intros Hwork. replace n with (0 + (0 + (n + (0 + 0)))) by lia.
  apply sends_bind; [apply sends_keeps; now apply get_connection_keeps|].
  intros _. apply sends_bind; [apply sends_keeps; now apply conn_cursor_keeps|].
  intros _. apply sends_bind; [exact Hwork|]. intros _.
  apply sends_bind; [apply sends_keeps; now apply keeps_call|]. intros _.
  apply sends_keeps. now apply keeps_call.
Qed.

Lemma pipelines_send (q : pystr) :
  sends (run_query_try w q) (statement_allowed w q) (statement_budget w q) /\
  sends (rag_pipeline w q) (statement_allowed w q) (statement_budget w q).
Proof.
  rewrite run_query_try_by_route, rag_pipeline_by_route.
  unfold statement_allowed, statement_budget, canned_branch, retrieval_branch,
    generated_branch.
  destruct (route q) as [sql explain| |] eqn:Hr.
  - destruct (canned_work_sends sql q (fun st => st = (sql, [])) (fun _ => eq_refl)).
    split; now apply framed_work_sends.
  - destruct (retrieval_work_sends q Hr). split; now apply framed_work_sends.
  - destruct (generated_work_sends q). split; now apply framed_work_sends.
Qed.

(** (X3) One invocation, through either entry point and whether it ends well or
    not, sends to the database only the statements of its route: the
    canned statement; the LIKE statement with the query or one of its
    fallback tokens as parameter; or one generated statement that ends in
    its only ";" and passed the guard.  It sends at most one statement, or
    one more than there are fallback tokens on the retrieval route. *)
Theorem pipeline_statements (q : pystr) (s : State) :
  (exists new,
     executed (snd (run_query w q s)) = executed s ++ new /\
     Forall (statement_allowed w q) new /\
     List.length new <= statement_budget w q) /\
  (exists new,
     executed (snd (rag_pipeline w q s)) = executed s ++ new /\
     Forall (statement_allowed w q) new /\
     List.length new <= statement_budget w q).
Proof.
  destruct (pipelines_send q) as [Hrun Hrag]. split; [|apply Hrag].
  destruct (Hrun (with_out (fun _ => empty_result) s)) as (new & E & Hall & Hlen).
  exists new. split; [|now split].
  unfold run_query, try_except.
  destruct (run_query_try w q (with_out (fun _ => empty_result) s))
    as [[u|e] s'] eqn:Erun; exact E.
Qed.

End TrafficFacts.

(** ** Canned and generated statements at the guard *)

(** The statements of the resolver are literals of the program and pass
    the guard of [execute_sql]. *)
Lemma parse_intent_literal (q sql explain : pystr) :
  parse_intent q = CannedSql sql explain ->
  In sql [SQL_NAMES; SQL_COMPANIES; SQL_ROLES; SQL_AGES; SQL_COUNT; SQL_SUM;
          SQL_AVG; SQL_MAX; SQL_MIN] /\
  startswith (py "select") (lower sql) = true.
Proof.
  unfold parse_intent. cbv zeta.
  repeat match goal with
         | |- context [if ?c then _ else _] => destruct c
         end;
    intros E; try discriminate E; injection E as <- <-;
    (split; [cbv [In]; tauto | vm_compute; reflexivity]).
Qed.

Lemma execute_sql_select {Value : Type} (w : World Value) (sql : pystr)
    (s : State Value) :
  startswith (py "select") (lower sql) = true ->
  execute_sql w sql s =
  (match db_execute w (executed s) (sql, []) with
   | Raise e => Ok (Message (SQL_ERROR_PREFIX ++ e))
   | Ok _ =>
       match db_fetchall w (executed s ++ [(sql, [])]) with
       | Ok rows => Ok (Rows rows)
       | Raise e => Ok (Message (SQL_ERROR_PREFIX ++ e))
       end
   end, log_statement (sql, []) s).
Proof.
  intros Hsel. unfold execute_sql. rewrite Hsel. cbn [negb].
  unfold try_except, bind, cursor_execute, cursor_fetchall, call, ret.
  cbv beta.
  change (executed (log_statement (sql, []) s)) with (executed s ++ [(sql, [])]).
  destruct (db_execute w (executed s) (sql, [])) as [u|e]; [|reflexivity].
  destruct (db_fetchall w (executed s ++ [(sql, [])])); reflexivity.
Qed.

Lemma execute_sql_rejected {Value : Type} (w : World Value) (sql : pystr)
    (s : State Value) :
  startswith (py "select") (lower sql) = false ->
  execute_sql w sql s = (Ok (Message ADVISORY), s).
Proof. intros Hsel. unfold execute_sql. now rewrite Hsel. Qed.

(** (X4) Whatever [parse_intent] maps a query to is sent to the database as it
    is, once and without parameters, and is never answered with the
    advisory string of the guard: the result is the rows, or the message
    of a database error. *)
Theorem canned_statement_always_executed {Value : Type} (w : World Value)
    (q sql explain : pystr) (s : State Value) :
  parse_intent q = CannedSql sql explain ->
  exists r,
    execute_sql w sql s = (Ok r, log_statement (sql, []) s) /\
    ((exists rows, r = Rows rows) \/
     (exists e, r = Message (SQL_ERROR_PREFIX ++ e))) /\
    r <> Message ADVISORY.
Proof.
  intros Hp. destruct (parse_intent_literal _ _ _ Hp) as [_ Hsel].
  rewrite (execute_sql_select w sql s Hsel).
  assert (Hadv : forall e, Message (Value := Value) (SQL_ERROR_PREFIX ++ e)
                           <> Message ADVISORY)
    by (intros e E; injection E as E; vm_compute in E; discriminate E).
  destruct (db_execute w (executed s) (sql, [])) as [u|e].
  - destruct (db_fetchall w (executed s ++ [(sql, [])])) as [rows|e];
      eexists; (split; [reflexivity|]); split; eauto; try apply Hadv.
    discriminate.
  - eexists; (split; [reflexivity|]); split; eauto.
Qed.

Lemma canned_statement_always_executed_witness :
  parse_intent (py "Which companies are there?")
    = CannedSql SQL_COMPANIES (py "distinct companies") /\
  fst (execute_sql Sample.world SQL_COMPANIES initial_state) = Ok (Rows []).
Proof.
  split; [vm_compute; reflexivity|].
  destruct (canned_statement_always_executed Sample.world
              (py "Which companies are there?") SQL_COMPANIES
              (py "distinct companies") initial_state) as (r & E & _);
    [vm_compute; reflexivity|].
  vm_compute; reflexivity.
Defined.

(** (X5) When the statement that [generate_sql] returns does not start with
    "select", [run_query] sends nothing to the database: the record holds
    the statement and the advisory string, no answer and no error. *)
Theorem generated_non_select_not_executed {Value : Type} `{ValueEq Value}
    (w : World Value) (q text sql : pystr) (s : State Value) :
  route q = ViaGeneratedSql ->
  gemini_sql_text w q = Ok text ->
  sanitize text = Ok sql ->
  startswith (py "select") (lower sql) = false ->
  executed (snd (run_query w q s)) = executed s /\
  (get_connection_outcome w = Ok tt -> cursor_outcome w = Ok tt ->
   cursor_close_outcome w = Ok tt -> conn_close_outcome w = Ok tt ->
   fst (run_query w q s) =
   {| generated_sql := Some sql; sql_result := Some (Message ADVISORY);
      retrieved_context := None; model_answer := None; error := None |}).
Proof.
  intros Hr Hg Hs Hsel.
  assert (Hwork : forall s0 : State Value,
             generated_work w q s0 =
             (Ok tt, with_out (put_sql_result (Message ADVISORY))
                       (with_out (put_generated_sql sql) s0))).
  { intros s0. unfold generated_work, bind, generate_sql, call, modify.
    rewrite Hg, Hs. rewrite (execute_sql_rejected w sql _ Hsel). reflexivity. }
  unfold run_query, try_except. rewrite run_query_try_by_route, Hr.
  unfold generated_branch, bind, get_connection, conn_cursor.
  destruct (get_connection_outcome w) as [u1|e1]; [|split; [reflexivity|discriminate]].
  destruct (cursor_outcome w) as [u2|e2]; [|split; [reflexivity|discriminate]].
  rewrite Hwork. unfold cursor_close, conn_close, call, modify.
  destruct (cursor_close_outcome w) as [u3|e3]; [|split; [reflexivity|discriminate]].
  destruct (conn_close_outcome w) as [u4|e4]; split; try reflexivity; discriminate.
Qed.

Lemma generated_non_select_not_executed_witness :
  let q := py "how many people are there" in
  sanitize (py "DROP TABLE people_info; SELECT 1;")
    = Ok (py "DROP TABLE people_info;") /\
  executed (snd (run_query Sample.world_drop q initial_state)) = [] /\
  sql_result (fst (run_query Sample.world_drop q initial_state))
    = Some (Message ADVISORY).
Proof.
  cbv zeta. split; [vm_compute; reflexivity|].
  destruct (generated_non_select_not_executed Sample.world_drop
              (py "how many people are there")
              (py "DROP TABLE people_info; SELECT 1;")
              (py "DROP TABLE people_info;") initial_state)
    as [Hsent Hrec]; try (vm_compute; reflexivity).
  split; [exact Hsent|].
  rewrite Hrec; reflexivity.
Defined.

(** (X6) For a query classified [retrieval], the SQL text of every statement
    that an invocation sends is a literal of the program: the text of the
    query reaches the database only as the parameter of the LIKE
    statement. *)
Theorem retrieval_sql_is_literal {Value : Type} `{ValueEq Value}
    (w : World Value) (q : pystr) (s : State Value) :
  detect_query_type q = retrieval ->
  let literal st :=
    In (fst st) literal_statements /\
    (snd st = [] \/ exists t, st = like_stmt t) in
  (exists new, executed (snd (run_query w q s)) = executed s ++ new /\
               Forall literal new) /\
  (exists new, executed (snd (rag_pipeline w q s)) = executed s ++ new /\
               Forall literal new).
Proof.
  intros Hd literal.
  assert (Hlit : forall st, statement_allowed w q st -> literal st).
  { unfold statement_allowed, route. rewrite Hd.
    destruct (parse_intent q) as [sql explain|] eqn:Hp.
    - intros st ->. destruct (parse_intent_literal _ _ _ Hp) as [Hin _].
      split; [|now left]. cbn [fst]. unfold literal_statements.
      cbv [In] in Hin |- *. tauto.
    - assert (Hlike : forall t, literal (like_stmt t)).
      { intros t. split; [|right; now exists t].
        cbn [like_stmt fst]. unfold literal_statements. cbv [In]. tauto. }
      intros st [->|(t & _ & ->)]; apply Hlike. }
  destruct (pipelines_send w q) as [Hrun Hrag]. split.
  - destruct (Hrun (with_out (fun _ => empty_result) s)) as (new & E & Hall & _).
    exists new. split; [|eapply Forall_impl; [exact Hlit | exact Hall]].
    unfold run_query, try_except.
    destruct (run_query_try w q (with_out (fun _ => empty_result) s))
      as [[u|e] s'] eqn:Erun; exact E.
  - destruct (Hrag s) as (new & E & Hall & _).
    exists new. split; [exact E|]. eapply Forall_impl; [exact Hlit | exact Hall].
Qed.

Lemma retrieval_sql_is_literal_witness :
  detect_query_type (py "who is Asmi?") = retrieval /\
  exists new,
    executed (snd (run_query Sample.world (py "who is Asmi?") initial_state))
      = [] ++ new /\
    Forall (fun st => In (fst st) literal_statements /\
                      (snd st = [] \/ exists t, st = like_stmt t)) new.
Proof.
  split; [vm_compute; reflexivity|].
  exact (proj1 (retrieval_sql_is_literal Sample.world (py "who is Asmi?")
                  initial_state eq_refl)).
Defined.

(** ** Shapes of the record returned by [run_query] *)

Section ShapeFacts.

Context {Value : Type} `{ValueEq Value}.
Variable w : World Value.

Local Abbreviation State := (State Value).
Local Abbreviation M := (M Value).

Lemma Completed_Filled (o : PipelineResult Value) : Completed o -> Filled o.
Proof. intros []; constructor. Qed.

Lemma canned_work_fills (sql q : pystr) : fills (canned_work w sql q).
Proof.
  intros s r s' Hs Hrun. unfold canned_work, bind, modify in Hrun.
  pose proof (execute_sql_keeps w (fun s : State => out s) sql
                (fun _ _ => eq_refl) (with_out (put_generated_sql sql) s)) as Hk.
  destruct (execute_sql_returns w sql (with_out (put_generated_sql sql) s))
    as [result Hres].
  destruct (execute_sql w sql (with_out (put_generated_sql sql) s))
    as [r1 s1]. cbn [fst snd] in *. subst r1.
  cbn [with_out out] in Hk. rewrite Hs in Hk.
  destruct result as [rows|msg]; cbn [when_rows] in Hrun.
  - unfold bind, explain_sql_result, call, modify in Hrun.
    destruct (gemini_explanation w rows q) as [a|e];
      injection Hrun as <- <-; cbn [with_out out]; rewrite Hk.
    + split; [constructor | intros _ _; constructor].
    + split; [constructor | discriminate].
  - injection Hrun as <- <-. cbn [with_out out]. rewrite Hk.
    split; [constructor | intros _ _; constructor].
Qed.

Lemma generated_work_fills (q : pystr) : fills (generated_work w q).
Proof.
  intros s r s' Hs Hrun.
  change (generated_work w q)
    with (sql <- generate_sql w q ;; canned_work w sql q) in Hrun.
  unfold bind at 1 in Hrun. unfold generate_sql, call in Hrun.
  destruct (match gemini_sql_text w q with
            | Ok text => sanitize text
            | Raise e => Raise e
            end) as [sql|e].
  - exact (canned_work_fills sql q s r s' Hs Hrun).
  - injection Hrun as <- <-. rewrite Hs. split; [constructor | discriminate].
Qed.

Lemma retrieval_work_fills (q : pystr) : fills (retrieval_work w q).
Proof.
  intros s r s' Hs Hrun. unfold retrieval_work, bind in Hrun.
  pose proof (retrieve_from_db_keeps w (fun s : State => out s) q
                (fun _ _ => eq_refl) s) as Hk.
  destruct (retrieve_from_db w q s) as [[[|row rows]|e] s1];
    cbn [fst snd] in *.
  - injection Hrun as <- <-. cbn [with_out out]. rewrite Hk, Hs.
    split; [constructor | intros _ _; constructor].
  - unfold bind, modify, generate_answer, call in Hrun.
    destruct (gemini_answer w q (row :: rows)) as [a|e];
      injection Hrun as <- <-; cbn [with_out out]; rewrite Hk, Hs.
    + split; [constructor | intros _ _; constructor].
    + split; [constructor | discriminate].
  - injection Hrun as <- <-. rewrite Hk, Hs. split; [constructor | discriminate].
Qed.

Lemma routed_work_fills (q : pystr) : fills (routed_work w q).
Proof.
  unfold routed_work. destruct (route q).
  - apply canned_work_fills.
  - apply retrieval_work_fills.
  - apply generated_work_fills.
Qed.

Lemma run_query_try_fills (q : pystr) : fills (run_query_try w q).
Proof.
  intros s r s' Hs Hrun. rewrite run_query_try_shape in Hrun.
  unfold bind at 1 in Hrun.
  destruct (get_connection_spec w s) as [(u & _ & E1)|(e & _ & E1)];
    rewrite E1 in Hrun;
    [|injection Hrun as <- <-; rewrite Hs; split; [constructor | discriminate]].
  unfold bind at 1 in Hrun.
  destruct (conn_cursor_spec w (note_conn_opened s)) as [(u' & _ & E2)|(e & _ & E2)];
    rewrite E2 in Hrun;
    [|injection Hrun as <- <-; cbn [note_conn_opened out]; rewrite Hs;
      split; [constructor | discriminate]].
  unfold bind at 1 in Hrun.
  destruct (routed_work w q (note_cursor_opened (note_conn_opened s)))
    as [r3 s3] eqn:E3.
  destruct (routed_work_fills q (note_cursor_opened (note_conn_opened s))
              _ _ Hs E3) as [Hfilled Hdone].
  destruct r3 as [u3|e];
    [|injection Hrun as <- <-; split; [exact Hfilled | discriminate]].
  specialize (Hdone u3 eq_refl).
  unfold bind, cursor_close, conn_close, call in Hrun.
  destruct (cursor_close_outcome w) as [u4|e];
    [destruct (conn_close_outcome w) as [u5|e]|];
    injection Hrun as <- <-;
    cbn [note_cursor_closed note_conn_closed out];
    (split; [now apply Completed_Filled | intros; exact Hdone]).
Qed.

(** (X7) The record that [run_query] returns is, when [error] is [None], one of
    the four completed fillings; otherwise it is [error] added to one of
    the seven fillings.  So rows retrieved are never empty and never come
    with a statement or its result, a result never comes without its
    statement, and an answer never comes with a result that is a
    message. *)
Theorem run_query_record_shapes (q : pystr) (s : State) :
  let r := fst (run_query w q s) in
  match error r with
  | None => Completed r
  | Some e => exists o, Filled o /\ error o = None /\ r = put_error e o
  end.
Proof.
  cbv zeta. unfold run_query, try_except.
  destruct (run_query_try w q (with_out (fun _ => empty_result) s))
    as [r s'] eqn:E.
  destruct (run_query_try_fills q (with_out (fun _ => empty_result) s)
              _ _ eq_refl E) as [Hfilled Hdone].
  destruct r as [u|e]; cbn [fst snd].
  - specialize (Hdone u eq_refl). pose proof Hdone as Hc.
    destruct Hdone; exact Hc.
  - cbn [modify fst snd with_out out put_error error].
    exists (out s'). split; [exact Hfilled|].
    split; [destruct Hfilled; reflexivity | reflexivity].
Qed.

End ShapeFacts.

(** ** The two entry points do the same work *)

Section EntryPointFacts.

Context {Value : Type} `{ValueEq Value}.
Variable w : World Value.

Local Abbreviation State := (State Value).
Local Abbreviation M := (M Value).

Lemma mirrors_bind {A B} (m1 m2 : M A) (k1 k2 : A -> M B) :
  mirrors m1 m2 -> (forall a, mirrors (k1 a) (k2 a)) ->
  mirrors (bind m1 k1) (bind m2 k2).
Proof.
  intros Hm Hk s1 s2 Hs. unfold bind. destruct (Hm s1 s2 Hs) as [Hr Hf].
  destruct (m1 s1) as [r1 t1], (m2 s2) as [r2 t2]. cbn [fst snd] in *.
  subst r2. destruct r1 as [a|e]; [now apply Hk | now split].
Qed.

Lemma mirrors_silent (a b : M unit) : silent a -> silent b -> mirrors a b.
Proof.
  intros Ha Hb s1 s2 Hs. destruct (Ha s1) as [-> ->], (Hb s2) as [-> ->].
  now split.
Qed.

Lemma mirrors_silent_l {A} (a : M unit) (m1 m2 : M A) :
  silent a -> mirrors m1 m2 -> mirrors (a ;; m1) m2.
Proof.
  intros Ha Hm s1 s2 Hs. unfold bind. destruct (Ha s1) as [Hr Hf].
  destruct (a s1) as [r t]. cbn [fst snd] in *. subst r.
  apply Hm. congruence.
Qed.

Lemma mirrors_silent_r {A} (b : M unit) (m1 m2 : M A) :
  silent b -> mirrors m1 m2 -> mirrors m1 (b ;; m2).
Proof.
  intros Hb Hm s1 s2 Hs. unfold bind. destruct (Hb s2) as [Hr Hf].
  destruct (b s2) as [r t]. cbn [fst snd] in *. subst r.
  apply Hm. congruence.
Qed.

Lemma silent_modify (upd : State -> State) :
  (forall s, footprint (upd s) = footprint s) -> silent (modify upd).
Proof. intros Hu s. split; [reflexivity | apply Hu]. Qed.

Lemma silent_bind (a b : M unit) : silent a -> silent b -> silent (a ;; b).
Proof.
  intros Ha Hb s. unfold bind. destruct (Ha s) as [Hr Hf].
  destruct (a s) as [r t]. cbn [fst snd] in *. subst r.
  destruct (Hb t) as [Hr' Hf']. split; congruence.
Qed.

(** A call whose outcome and whose trace in the store depend on the
    footprint alone. *)
Lemma mirrors_call {A} (outcome : State -> result A) (upd : State -> State) :
  (forall s1 s2, footprint s1 = footprint s2 -> outcome s1 = outcome s2) ->
  (forall s1 s2, footprint s1 = footprint s2 ->
                 footprint (upd s1) = footprint (upd s2)) ->
  mirrors (call outcome upd) (call outcome upd).
Proof. intros Ho Hu s1 s2 Hs. split; [now apply Ho | now apply Hu]. Qed.

Lemma footprint_executed (s1 s2 : State) :
  footprint s1 = footprint s2 -> executed s1 = executed s2.
Proof. unfold footprint. now intros [= -> _]. Qed.

Lemma footprint_log (st : Stmt) (s1 s2 : State) :
  footprint s1 = footprint s2 ->
  footprint (log_statement st s1) = footprint (log_statement st s2).
Proof.
  unfold footprint, resources. cbn. intros [= -> -> -> -> ->]. reflexivity.
Qed.

Lemma mirrors_cursor_execute (st : Stmt) :
  mirrors (cursor_execute w st) (cursor_execute w st).
Proof.
  apply mirrors_call; intros s1 s2 Hs;
    [now rewrite (footprint_executed _ _ Hs) | now apply footprint_log].
Qed.

Lemma mirrors_cursor_fetchall :
  mirrors (cursor_fetchall w) (cursor_fetchall w).
Proof.
  apply mirrors_call; intros s1 s2 Hs;
    [now rewrite (footprint_executed _ _ Hs) | exact Hs].
Qed.

Lemma mirrors_quiet_call {A} (r : result A) :
  mirrors (call (fun _ : State => r) (fun s => s))
          (call (fun _ : State => r) (fun s => s)).
Proof. apply mirrors_call; intros s1 s2 Hs; [reflexivity | exact Hs]. Qed.

Lemma mirrors_ret {A} (a : A) : mirrors (ret a : M A) (ret a).
Proof. intros s1 s2 Hs. now split. Qed.

Lemma mirrors_search_tokens (tokens : list pystr) :
  forall found,
    mirrors (search_tokens w tokens found) (search_tokens w tokens found).
Proof.
  induction tokens as [|token rest IH]; intros found; cbn [search_tokens].
  - apply mirrors_ret.
  - apply mirrors_bind; [apply mirrors_cursor_execute|]. intros _.
    apply mirrors_bind; [apply mirrors_cursor_fetchall|]. intros rows. apply IH.
Qed.

Lemma mirrors_retrieve_from_db (q : pystr) :
  mirrors (retrieve_from_db w q) (retrieve_from_db w q).
Proof.
  unfold retrieve_from_db, fuzzy_search. cbv zeta.
  destruct (name_shortcut (lower q)).
  - apply mirrors_bind; [apply mirrors_cursor_execute|]. intros _.
    apply mirrors_cursor_fetchall.
  - apply mirrors_bind; [apply mirrors_cursor_execute|]. intros _.
    apply mirrors_bind; [apply mirrors_cursor_fetchall|]. intros [|row rows].
    + apply mirrors_bind; [apply mirrors_search_tokens|].
      intros [|kr found]; apply mirrors_ret.
    + apply mirrors_ret.
Qed.

Lemma mirrors_execute_sql (sql : pystr) :
  mirrors (execute_sql w sql) (execute_sql w sql).
Proof.
  intros s1 s2 Hs.
  destruct (startswith (py "select") (lower sql)) eqn:E.
  - rewrite !(execute_sql_select w sql _ E). cbn [fst snd].
    rewrite (footprint_executed _ _ Hs). split; [reflexivity|].
    now apply footprint_log.
  - rewrite !(execute_sql_rejected w sql _ E). now split.
Qed.

Lemma silent_put (f : PipelineResult Value -> PipelineResult Value) :
  silent (modify (with_out f)).
Proof. now apply silent_modify. Qed.

Lemma silent_print (p : Printed Value) : silent (print p).
Proof. now apply silent_modify. Qed.

Lemma mirrors_canned_work (sql q : pystr) :
  mirrors (canned_work w sql q) (rag_canned_work w sql q).
Proof.
  unfold canned_work, rag_canned_work.
  apply mirrors_silent_l; [apply silent_put|].
  apply mirrors_silent_r; [apply silent_print|].
  apply mirrors_bind; [apply mirrors_execute_sql|]. intros result.
  apply mirrors_silent_l; [apply silent_put|].
  apply mirrors_silent_r; [apply silent_print|].
  apply mirrors_silent_r; [apply silent_print|].
  destruct result as [rows|msg]; cbn [when_rows]; [|apply mirrors_ret].
  apply mirrors_bind; [apply mirrors_quiet_call|]. intros a.
  apply mirrors_silent; [apply silent_put|].
  apply silent_bind; apply silent_print.
Qed.

Lemma mirrors_generated_work (q : pystr) :
  mirrors (generated_work w q) (rag_generated_work w q).
Proof.
  change (generated_work w q)
    with (sql <- generate_sql w q ;; canned_work w sql q).
  change (rag_generated_work w q)
    with (sql <- generate_sql w q ;; rag_canned_work w sql q).
  apply mirrors_bind; [apply mirrors_quiet_call|]. intros sql.
  apply mirrors_canned_work.
Qed.

Lemma mirrors_retrieval_work (q : pystr) :
  mirrors (retrieval_work w q) (rag_retrieval_work w q).
Proof.
  unfold retrieval_work, rag_retrieval_work.
  apply mirrors_bind; [apply mirrors_retrieve_from_db|]. intros [|row rows].
  - apply mirrors_silent; [apply silent_put | apply silent_print].
  - apply mirrors_silent_l; [apply silent_put|].
    apply mirrors_silent_r; [apply silent_print|].
    apply mirrors_silent_r; [apply silent_print|].
    apply mirrors_bind; [apply mirrors_quiet_call|]. intros a.
    apply mirrors_silent; [apply silent_put|].
    apply silent_bind; apply silent_print.
Qed.

Lemma mirrors_get_connection : mirrors (get_connection w) (get_connection w).
Proof.
  intros s1 s2 Hs. unfold get_connection.
  destruct (get_connection_outcome w); [|now split]. split; [reflexivity|].
  revert Hs. unfold footprint, resources. cbn. now intros [= -> -> -> -> ->].
Qed.

Lemma mirrors_conn_cursor : mirrors (conn_cursor w) (conn_cursor w).
Proof.
  intros s1 s2 Hs. unfold conn_cursor.
  destruct (cursor_outcome w); [|now split]. split; [reflexivity|].
  revert Hs. unfold footprint, resources. cbn. now intros [= -> -> -> -> ->].
Qed.

Lemma mirrors_release :
  mirrors (cursor_close w ;; conn_close w) (cursor_close w ;; conn_close w).
Proof.
  apply mirrors_bind; [|intros _];
    (apply mirrors_call; intros s1 s2 Hs; [reflexivity|]);
    revert Hs; unfold footprint, resources; cbn; now intros [= -> -> -> -> ->].
Qed.

Lemma mirrors_pipelines (q : pystr) :
  mirrors (run_query_try w q) (rag_pipeline w q).
Proof.
  rewrite run_query_try_by_route, rag_pipeline_by_route.
  apply mirrors_bind; [apply mirrors_get_connection|]. intros _.
  apply mirrors_bind; [apply mirrors_conn_cursor|]. intros _.
  unfold canned_branch, retrieval_branch, generated_branch.
  destruct (route q) as [sql explain| |];
    (apply mirrors_bind; [|intros _; apply mirrors_release]).
  - apply mirrors_canned_work.
  - apply mirrors_retrieval_work.
  - apply mirrors_generated_work.
Qed.

(** (X8) [rag_pipeline] and [run_query] do the same work on the same query:
    they send the same statements, acquire and close the same resources,
    and [rag_pipeline] raises exactly when [run_query] reports an error,
    with the same message. *)
Theorem rag_pipeline_mirrors_run_query (q : pystr) (s : State) :
  executed (snd (rag_pipeline w q s)) = executed (snd (run_query w q s)) /\
  resources (snd (rag_pipeline w q s)) = resources (snd (run_query w q s)) /\
  match fst (rag_pipeline w q s) with
  | Ok _ => error (fst (run_query w q s)) = None
  | Raise e => error (fst (run_query w q s)) = Some e
  end.
Proof.
  destruct (mirrors_pipelines q (with_out (fun _ => empty_result) s) s eq_refl)
    as [Hr Hf].
  pose proof (run_query_try_keeps_error w q (with_out (fun _ => empty_result) s))
    as Hkeep.
  unfold run_query, try_except.
  destruct (run_query_try w q (with_out (fun _ => empty_result) s))
    as [r s'] eqn:E.
  cbn [fst snd] in Hr, Hf, Hkeep. rewrite <- Hr.
  assert (Hexec : executed (snd (rag_pipeline w q s)) = executed s')
    by (symmetry; exact (f_equal fst Hf)).
  assert (Hres : resources (snd (rag_pipeline w q s)) = resources s')
    by (symmetry; exact (f_equal snd Hf)).
  destruct r as [u|e]; cbn [fst snd modify].
  - repeat split; [exact Hexec | exact Hres | exact Hkeep].
  - repeat split; [exact Hexec | exact Hres].
Qed.

End EntryPointFacts.

(** ** The fallback dictionary *)

Section FallbackFacts.

Context {Value : Type} `{ValueEq Value}.
Variable w : World Value.

Local Abbreviation State := (State Value).
Local Abbreviation Row := (Row Value).
Local Abbreviation Dict := (Dict Value).
Local Abbreviation Key := (Key Value).

Lemma key_in_iff (k : Key) (seen : list Key) : key_in k seen = true <-> In k seen.
Proof.
  unfold key_in. rewrite existsb_exists. split.
  - intros (k' & Hin & E). apply key_eqb_eq in E. now subst.
  - intros Hin. exists k. split; [exact Hin | now apply key_eqb_eq].
Qed.

Lemma key_eq_dec (a b : Key) : {a = b} + {a <> b}.
Proof.
  destruct (key_eqb a b) eqn:E.
  - left. now apply key_eqb_eq.
  - right. intros ->. assert (key_eqb b b = true) by (now apply key_eqb_eq).
    congruence.
Qed.

Lemma first_seen_ext (keys : list Key) :
  forall seen1 seen2,
    (forall k, In k seen1 <-> In k seen2) ->
    first_seen seen1 keys = first_seen seen2 keys.
Proof.
  induction keys as [|k keys IH]; intros seen1 seen2 Hext; cbn [first_seen].
  - reflexivity.
  - assert (E : key_in k seen1 = key_in k seen2).
    { destruct (key_in k seen1) eqn:E1, (key_in k seen2) eqn:E2; trivial.
      - apply key_in_iff, Hext, key_in_iff in E1. congruence.
      - apply key_in_iff, Hext, key_in_iff in E2. congruence. }
    rewrite E. destruct (key_in k seen2).
    + now apply IH.
    + f_equal. apply IH. intros k'. cbn [In]. now rewrite Hext.
Qed.

Lemma dict_set_keys (k : Key) (v : Row) (d : Dict) :
  map fst (dict_set k v d) =
  if key_in k (map fst d) then map fst d else map fst d ++ [k].
Proof.
  induction d as [|[k' v'] d IH]; cbn [dict_set map fst key_in existsb app].
  - reflexivity.
  - destruct (key_eqb k' k) eqn:E; cbn [orb map fst].
    + reflexivity.
    + rewrite IH. unfold key_in. now destruct (existsb _ (map fst d)).
Qed.

(** Assignment and membership: after [found[k] = v], the dictionary holds
    [v] under [k] and, under every other key, what it held before. *)
Lemma dict_set_In (k k0 : Key) (v v0 : Row) (d : Dict) :
  NoDup (map fst d) ->
  (In (k0, v0) (dict_set k v d) <->
   (k0 = k /\ v0 = v) \/ (k0 <> k /\ In (k0, v0) d)).
Proof.
  induction d as [|[k' v'] d IH]; cbn [dict_set map fst]; intros Hnd.
  - cbn [In]. split.
    + intros [[= <- <-]|[]]. now left.
    + intros [[-> ->]|[_ []]]. now left.
  - inversion Hnd as [|? ? Hnotin Hnd']; subst.
    destruct (key_eqb k' k) eqn:E.
    + apply key_eqb_eq in E. subst k'. cbn [In]. split.
      * intros [[= <- <-]|Hin]; [now left|]. right. split; [|now right].
        intros ->. apply Hnotin. now apply (in_map fst) in Hin.
      * intros [[-> ->]|[Hne [[= -> ->]|Hin]]]; [now left | congruence | now right].
    + assert (Hne : k' <> k)
        by (intros ->; assert (key_eqb k k = true) by (now apply key_eqb_eq);
            congruence).
      cbn [In]. rewrite (IH Hnd'). split.
      * intros [[= <- <-]|[[-> ->]|[Hk Hin]]]; auto.
      * intros [[-> ->]|[Hk [[= -> ->]|Hin]]]; auto.
Qed.

Lemma add_rows_cons (r : Row) (rows : list Row) (d : Dict) :
  add_rows (r :: rows) d = add_rows rows (dict_set (row_key r) r d).
Proof. reflexivity. Qed.

Lemma add_rows_keys (rows : list Row) :
  forall d : Dict,
    map fst (add_rows rows d) =
    map fst d ++ first_seen (map fst d) (map row_key rows).
Proof.
  induction rows as [|r rows IH]; intros d.
  - cbn. now rewrite app_nil_r.
  - rewrite add_rows_cons, IH, dict_set_keys. cbn [map first_seen].
    destruct (key_in (row_key r) (map fst d)) eqn:E; [reflexivity|].
    rewrite <- app_assoc. cbn [app]. do 2 f_equal.
    apply first_seen_ext. intros k. rewrite in_app_iff. cbn [In]. tauto.
Qed.

Lemma last_of_key_cons (x r : Row) (rows : list Row) :
  last_of_key (x :: rows) r <->
  last_of_key rows r \/
  (r = x /\ forall r', In r' rows -> row_key r' <> row_key x).
Proof.
  unfold last_of_key. split.
  - intros ([|y pre] & post & E & Hpost); cbn [app] in E; injection E as -> ->.
    + right. now split.
    + left. now exists pre, post.
  - intros [(pre & post & -> & Hpost)|[-> Hpost]].
    + now exists (x :: pre), post.
    + now exists [], rows.
Qed.

Lemma add_rows_In (rows : list Row) :
  forall (d : Dict) (k : Key) (r : Row),
    keyed d ->
    (In (k, r) (add_rows rows d) <->
     (k = row_key r /\ last_of_key rows r) \/
     (In (k, r) d /\ forall r', In r' rows -> row_key r' <> k)).
Proof.
  induction rows as [|x rows IH]; intros d k r Hd.
  - cbn [add_rows fold_left]. split.
    + intros Hin. right. split; [exact Hin | intros r' []].
    + intros [[_ (pre & post & E & _)]|[Hin _]]; [|exact Hin].
      destruct pre; discriminate.
  - rewrite add_rows_cons, (IH _ k r (dict_set_keyed _ _ _ eq_refl Hd)).
    rewrite (dict_set_In _ _ _ _ _ (proj1 Hd)), last_of_key_cons.
    assert (Hkey : In (k, r) d -> k = row_key r).
    { intros Hin. exact (proj1 (Forall_forall _ d) (proj2 Hd) (k, r) Hin). }
    cbn [In]. split.
    + intros [[Hk Hlast]|[[[-> ->]|[Hne Hin]] Hrows]].
      * left. auto.
      * left. split; [reflexivity|]. right. auto.
      * right. split; [exact Hin|]. intros r' [<-|Hr']; [congruence | auto].
    + intros [[Hk [Hlast|[-> Hrows]]]|[Hin Hrows]].
      * left. auto.
      * right. split; [left; auto | intros r' Hr'; rewrite Hk; auto].
      * right. split; [right; split; [|exact Hin] | auto].
        intros ->. apply (Hrows x); auto.
Qed.

Lemma last_of_key_exists (rows : list Row) (k : Key) :
  In k (map row_key rows) ->
  exists r, last_of_key rows r /\ row_key r = k.
Proof.
  induction rows as [|x rows IH]; cbn [map In]; [intros []|]. intros Hk.
  destruct (in_dec key_eq_dec k (map row_key rows)) as [Hlater|Hnot].
  - destruct (IH Hlater) as (r & Hl & E).
    exists r. split; [apply last_of_key_cons; now left | exact E].
  - destruct Hk as [E|Hk]; [|contradiction].
    exists x. split; [|exact E]. apply last_of_key_cons. right.
    split; [reflexivity|]. intros r' Hr' E'. apply Hnot.
    rewrite <- E, <- E'. now apply in_map.
Qed.

Lemma add_rows_last_first (rows : list Row) :
  let result := dict_values (add_rows rows []) in
  map row_key result = first_seen [] (map row_key rows) /\
  (forall r, In r result <-> last_of_key rows r) /\
  (forall r, In r rows -> exists r', In r' result /\ row_key r' = row_key r).
Proof.
  cbv zeta.
  assert (Hk0 : keyed (@nil (Key * Row)))
    by (split; [apply NoDup_nil | apply Forall_nil]).
  pose proof (add_rows_keyed rows [] Hk0) as Hk.
  assert (Hin : forall r, In r (dict_values (add_rows rows [])) <->
                          last_of_key rows r).
  { intros r. unfold dict_values. rewrite in_map_iff. split.
    - intros ([k r'] & E & Hin). cbn [snd] in E. subst r'.
      apply (add_rows_In rows [] k r Hk0) in Hin as [[_ Hlast]|[[] _]].
      exact Hlast.
    - intros Hlast. exists (row_key r, r). split; [reflexivity|].
      apply (add_rows_In rows [] _ r Hk0). left. now split. }
  split; [|split].
  - unfold dict_values. rewrite map_map.
    replace (map (fun kr => row_key (snd kr)) (add_rows rows []))
      with (map fst (add_rows rows [])).
    + now rewrite add_rows_keys.
    + apply map_ext_in. intros kr Hkr.
      exact (proj1 (Forall_forall _ _) (proj2 Hk) kr Hkr).
  - exact Hin.
  - intros r Hr.
    destruct (last_of_key_exists rows (row_key r) (in_map row_key _ _ Hr))
      as (r' & Hl & E).
    exists r'. split; [now apply Hin | exact E].
Qed.

Lemma add_rows_app (rows1 rows2 : list Row) (d : Dict) :
  add_rows (rows1 ++ rows2) d = add_rows rows2 (add_rows rows1 d).
Proof. unfold add_rows. apply fold_left_app. Qed.

Lemma search_tokens_found (tokens : list pystr) :
  forall (found d : Dict) (s s' : State),
    search_tokens w tokens found s = (Ok d, s') ->
    d = add_rows (fetched_rows w tokens (executed s)) found.
Proof.
  induction tokens as [|token rest IH]; intros found d s s' Hrun.
  - injection Hrun as <- _. reflexivity.
  - cbn [search_tokens] in Hrun.
    apply bind_Ok_inv in Hrun as (u & s1 & Hexec & Hrun).
    apply bind_Ok_inv in Hrun as (rows & s2 & Hfetch & Hrun).
    unfold cursor_execute, call in Hexec. injection Hexec as _ <-.
    unfold cursor_fetchall, call in Hfetch. injection Hfetch as Hrows <-.
    cbn [executed log_statement] in Hrows.
    rewrite (IH _ _ _ _ Hrun). cbn [fetched_rows executed log_statement].
    rewrite Hrows. now rewrite add_rows_app.
Qed.

(** (X9) When the search with the whole query finds nothing, what
    [retrieve_from_db] returns is read off the rows that the searches of
    the tokens fetched, in the order fetched: for every key (the value of
    the first column) the last row fetched with that key, and these in the
    order in which their keys first appeared; no key fetched is lost. *)
Theorem fallback_last_row_first_seen_order (q : pystr) (s s' : State)
    (rows : list Row) :
  name_shortcut (lower q) = false ->
  db_fetchall w (executed s ++ [like_stmt q]) = Ok [] ->
  retrieve_from_db w q s = (Ok rows, s') ->
  let fetched :=
    fetched_rows w (fallback_tokens w q) (executed s ++ [like_stmt q]) in
  map row_key rows = first_seen [] (map row_key fetched) /\
  (forall r, In r rows <-> last_of_key fetched r) /\
  (forall r, In r fetched -> exists r', In r' rows /\ row_key r' = row_key r).
Proof.
  intros Hguard Hfetch Hrun fetched.
  unfold retrieve_from_db in Hrun. cbv zeta in Hrun. rewrite Hguard in Hrun.
  unfold fuzzy_search in Hrun.
  apply bind_Ok_inv in Hrun as (u & s1 & Hexec & Hrun).
  unfold cursor_execute, call in Hexec. injection Hexec as _ <-.
  apply bind_Ok_inv in Hrun as (results & s2 & Hf & Hrun).
  unfold cursor_fetchall, call in Hf. cbn [executed log_statement] in Hf.
  rewrite Hfetch in Hf. injection Hf as <- <-.
  apply bind_Ok_inv in Hrun as (found & s3 & Hloop & Hret).
  apply search_tokens_found in Hloop. cbn [executed log_statement] in Hloop.
  fold fetched in Hloop.
  assert (Hrows : rows = dict_values (add_rows fetched [])).
  { destruct found as [|kr found]; injection Hret as <- _; now rewrite <- Hloop. }
  rewrite Hrows. apply add_rows_last_first.
Qed.

End FallbackFacts.

Lemma fallback_last_row_first_seen_order_witness :
  let q := py "who is Asmi the Engineer?" in
  name_shortcut (lower q) = false /\
  db_fetchall Sample.world [like_stmt q] = Ok [] /\
  fetched_rows Sample.world (fallback_tokens Sample.world q) [like_stmt q]
    = [Sample.asmi; Sample.asmi] /\
  (forall r, In r [Sample.asmi] <-> last_of_key [Sample.asmi; Sample.asmi] r).
Proof.
  cbv zeta. do 3 (split; [vm_compute; reflexivity|]).
  destruct (retrieve_from_db Sample.world (py "who is Asmi the Engineer?")
              initial_state) as [r s'] eqn:E.
  assert (Hr : r = Ok [Sample.asmi])
    by (change r with (fst (r, s')); rewrite <- E; vm_compute; reflexivity).
  subst r.
  exact (proj1 (proj2 (fallback_last_row_first_seen_order Sample.world
                         (py "who is Asmi the Engineer?") initial_state s'
                         [Sample.asmi] eq_refl eq_refl E))).
Defined.

(** ** Full matches and the size of the fallback *)

Section RetrievalBounds.

Context {Value : Type} `{ValueEq Value}.
Variable w : World Value.

Local Abbreviation State := (State Value).
Local Abbreviation Row := (Row Value).

(** (X10) When the search with the whole query finds rows, [retrieve_from_db]
    returns them as fetched, duplicates and order included, after this
    one statement: the tokens are not searched and nothing is
    deduplicated. *)
Theorem full_match_returned_as_fetched (q : pystr) (s : State) (row : Row)
    (rows : list Row) :
  name_shortcut (lower q) = false ->
  (exists u, db_execute w (executed s) (like_stmt q) = Ok u) ->
  db_fetchall w (executed s ++ [like_stmt q]) = Ok (row :: rows) ->
  retrieve_from_db w q s = (Ok (row :: rows), log_statement (like_stmt q) s).
Proof.
  intros Hguard [u Hexec] Hfetch.
  unfold retrieve_from_db. cbv zeta. rewrite Hguard.
  unfold fuzzy_search, bind, cursor_execute, cursor_fetchall, call.
  rewrite Hexec. cbn [executed log_statement]. now rewrite Hfetch.
Qed.

Lemma Words_infix (s : pystr) (ts : list pystr) :
  Words w s ts -> forall t, In t ts -> exists a b, s = a ++ t ++ b.
Proof.
  induction 1 as [|c s ts Hc _ IH|t0 rest ts Hne Ht Hrest _ IH]; intros t Hin.
  - destruct Hin.
  - destruct (IH t Hin) as (a & b & ->). now exists (c :: a), b.
  - destruct Hin as [->|Hin].
    + now exists [], rest.
    + destruct (IH t Hin) as (a & b & ->). exists (t0 ++ a), b.
      now rewrite <- app_assoc.
Qed.

Lemma Words_total_length (s : pystr) (ts : list pystr) :
  Words w s ts -> list_sum (map (@List.length N) ts) <= List.length s.
Proof.
  induction 1 as [|c s ts Hc _ IH|t0 rest ts Hne Ht Hrest _ IH]; cbn [map list_sum].
  - apply Nat.le_refl.
  - cbn [List.length]. apply le_S. exact IH.
  - rewrite length_app. now apply Nat.add_le_mono_l.
Qed.

Lemma filter_long_count (keep : pystr -> bool) (ts : list pystr) :
  (forall t, keep t = true -> 3 <= List.length t) ->
  3 * List.length (filter keep ts) <= list_sum (map (@List.length N) ts).
Proof.
  intros Hkeep. induction ts as [|t ts IH]; cbn [filter map].
  - cbn. lia.
  - change (list_sum (List.length t :: map (@List.length N) ts))
      with (List.length t + list_sum (map (@List.length N) ts)).
    destruct (keep t) eqn:E; cbn [List.length].
    + specialize (Hkeep t E). lia.
    + lia.
Qed.

(** (X11) Every fallback token is a piece of the query made of word characters,
    at least three of them, and is not a stopword in any letter case; so
    there are at most a third as many tokens as the query has characters,
    and one invocation sends at most that many statements and one. *)
Theorem fallback_tokens_bounded (q : pystr) :
  (forall t, In t (fallback_tokens w q) ->
             contains t q = true /\ 3 <= List.length t /\
             forallb (is_word w) t = true /\ ~ In (lower t) STOPWORDS) /\
  3 * List.length (fallback_tokens w q) <= List.length q /\
  3 * statement_budget w q <= List.length q + 3.
Proof.
  pose proof (findall_words_from_Words w q [] eq_refl) as Hwords.
  cbn [rev app] in Hwords. fold (findall_words w q) in Hwords.
  assert (Hlen : 3 * List.length (fallback_tokens w q) <= List.length q).
  { unfold fallback_tokens.
    etransitivity; [apply filter_long_count | now apply Words_total_length].
    intros t E. apply andb_true_iff in E as [_ E]. apply Nat.ltb_lt in E. lia. }
  split; [|split; [exact Hlen|]].
  - intros t Hin. apply fallback_tokens_spec in Hin as (Hw & Hstop & Hlong).
    split; [|split; [lia | split; [|exact Hstop]]].
    + apply contains_spec. exact (Words_infix _ _ Hwords t Hw).
    + clear Hlen Hstop Hlong. revert t Hw.
      induction Hwords as [|c s ts Hc _ IH|t0 rest ts Hne Ht Hrest _ IH];
        intros t Hin.
      * destruct Hin.
      * now apply IH.
      * destruct Hin as [->|Hin]; [exact Ht | now apply IH].
  - unfold statement_budget. destruct (route q); lia.
Qed.

End RetrievalBounds.

Lemma full_match_returned_as_fetched_witness :
  let q := py "Engineer" in
  name_shortcut (lower q) = false /\
  db_fetchall Sample.world [like_stmt q] = Ok [Sample.asmi] /\
  fst (retrieve_from_db Sample.world q initial_state) = Ok [Sample.asmi].
Proof.
  cbv zeta. do 2 (split; [vm_compute; reflexivity|]).
  rewrite (full_match_returned_as_fetched Sample.world (py "Engineer")
             initial_state Sample.asmi []);
    [reflexivity | vm_compute; reflexivity | now exists tt
    | vm_compute; reflexivity].
Defined.

(** ** The language-model client *)

Module GeminiFacts.
Import Gemini.

Section ClientFacts.

Context {Value Model : Type}.
Variable value_str : Value -> pystr.
Variable value_repr : Value -> pystr.
Variable sdk : @Sdk Model.

Local Abbreviation Client := (@Client Model).

Lemma ask_coherent (prompt : pystr) (c : Client) :
  coherent sdk c ->
  coherent sdk (snd (ask sdk prompt c)) /\
  List.length (requests (snd (ask sdk prompt c))) <= S (List.length (requests c)).
Proof.
  unfold coherent, ask, get_model. intros Hc.
  destruct (model_slot c) as [m|] eqn:Hslot.
  - cbn [snd model_slot constructed requests]. rewrite Hslot.
    destruct Hc as [Hb Hall]. split; [split; [exact Hb|]|].
    + apply Forall_app. split; [exact Hall | now repeat constructor].
    + rewrite length_app. cbn. lia.
  - destruct Hc as [Hb Hreq].
    destruct (construct sdk (constructed c) GEMINI_MODEL) as [m|e] eqn:Hcon;
      cbn [snd model_slot constructed requests models_built];
      rewrite Hcon, Hb, Hreq.
    + split; [split; [reflexivity | now repeat constructor] | cbn; lia].
    + split; [now split | cbn; lia].
Qed.

Lemma perform_ask (call : Call) (c : Client) :
  exists prompt,
    snd (perform value_str value_repr sdk call c) = snd (ask sdk prompt c).
Proof.
  destruct call as [q context|q|rows q]; cbn [perform].
  - now exists (answer_prompt q (readable_context value_str context)).
  - exists (sql_prompt q). unfold generate_sql.
    now destruct (ask sdk (sql_prompt q) c) as [[text|e] c'].
  - now exists (explain_prompt value_repr rows q).
Qed.

Lemma session_coherent (calls : list Call) :
  forall c,
    coherent sdk c ->
    coherent sdk (session value_str value_repr sdk calls c) /\
    List.length (requests (session value_str value_repr sdk calls c))
    <= List.length calls + List.length (requests c).
Proof.
  induction calls as [|call calls IH]; intros c Hc.
  - split; [exact Hc | cbn; lia].
  - destruct (perform_ask call c) as [prompt E].
    destruct (ask_coherent prompt c Hc) as [Hc' Hlen]. rewrite <- E in Hc', Hlen.
    destruct (IH _ Hc') as [Hfin Hlen'].
    change (session value_str value_repr sdk (call :: calls) c)
      with (session value_str value_repr sdk calls
              (snd (perform value_str value_repr sdk call c))).
    split; [exact Hfin|]. cbn [List.length]. lia.
Qed.

(** (X12) Over any session of calls of the three generators from a fresh module
    state, whatever each call returns: the constructor returns a model at
    most once, every request of the session is sent to that one model, no
    request is sent while there is none, and each call sends at most one
    request. *)
Theorem one_model_per_session (calls : list Call) :
  let c := session value_str value_repr sdk calls fresh_client in
  models_built sdk (constructed c) <= 1 /\
  (forall m, model_slot c = Some m ->
             Forall (fun r => fst r = m) (requests c)) /\
  (model_slot c = None -> requests c = []) /\
  List.length (requests c) <= List.length calls.
Proof.
  cbv zeta.
  assert (H0 : coherent sdk fresh_client) by (now split).
  destruct (session_coherent calls fresh_client H0) as [Hc Hlen].
  cbn [fresh_client requests List.length] in Hlen. rewrite Nat.add_0_r in Hlen.
  unfold coherent in Hc.
  destruct (model_slot (session value_str value_repr sdk calls fresh_client))
    as [m|]; destruct Hc as [Hb Hreq].
  - repeat split; [lia | | discriminate | exact Hlen].
    now intros m' [= <-].
  - repeat split; [lia | discriminate | now intros _ | exact Hlen].
Qed.

(** (X13) [generate_sql] fails only when the call of the model fails, with the
    exception of that call; when the model answers, whatever it answers,
    [generate_sql] returns a text that ends in ";" and holds no other
    ";". *)
Theorem generate_sql_single_statement (query : pystr) (c : Client) :
  match fst (ask sdk (sql_prompt query) c) with
  | Ok text =>
      exists body,
        fst (generate_sql sdk query c) = Ok (body ++ [SEMI]) /\
        ~ In SEMI body
  | Raise e => fst (generate_sql sdk query c) = Raise e
  end /\
  snd (generate_sql sdk query c) = snd (ask sdk (sql_prompt query) c).
Proof.
  unfold generate_sql.
  destruct (ask sdk (sql_prompt query) c) as [[text|e] c']; cbn [fst snd];
    [|now split].
  split; [|reflexivity].
  destruct (sanitize_shape text) as [t [_ ->]].
  exists (strip (before SEMI t)). split; [reflexivity|].
  intros Hin. apply strip_In in Hin. exact (before_not_In _ _ Hin).
Qed.

(** *** Formatting of the context *)

Lemma join_infix (sep p : pystr) (parts : list pystr) :
  In p parts -> exists a b, join sep parts = a ++ p ++ b.
Proof.
  induction parts as [|x parts IH]; [intros []|].
  intros [->|Hin].
  - destruct parts as [|y parts]; cbn [join].
    + exists [], []. now rewrite app_nil_r.
    + now exists [], (sep ++ join sep (y :: parts)).
  - destruct (IH Hin) as (a & b & E).
    destruct parts as [|y parts]; [destruct Hin|].
    change (join sep (x :: y :: parts)) with (x ++ sep ++ join sep (y :: parts)).
    rewrite E. exists (x ++ sep ++ a), b. now rewrite <- !app_assoc.
Qed.

Lemma items_from_nth (row : Row Value) :
  forall i k v,
    nth_error row k = Some v ->
    In (column_label (i + k) ++ py ": " ++ value_str v)
       (items_from value_str i row).
Proof.
  induction row as [|x row IH]; intros i [|k] v Hv; try discriminate Hv;
    cbn [items_from nth_error] in *.
  - injection Hv as ->. left. now rewrite Nat.add_0_r.
  - right. replace (i + S k) with (S i + k) by lia. now apply IH.
Qed.

Lemma infix_trans (p x s : pystr) :
  (exists a b, x = a ++ p ++ b) -> (exists a b, s = a ++ x ++ b) ->
  exists a b, s = a ++ p ++ b.
Proof.
  intros (a & b & ->) (c & d & ->). exists (c ++ a), (b ++ d).
  now rewrite <- !app_assoc.
Qed.

Lemma infix_skip (p a s : pystr) :
  (exists u v, s = u ++ p ++ v) -> exists u v, a ++ s = u ++ p ++ v.
Proof.
  intros (u & v & ->). exists (a ++ u), v. now rewrite <- app_assoc.
Qed.

Lemma infix_head (p x b : pystr) :
  (exists u v, x = u ++ p ++ v) -> exists u v, x ++ b = u ++ p ++ v.
Proof.
  intros (u & v & ->). exists u, (v ++ b). now rewrite <- !app_assoc.
Qed.

Lemma infix_refl (p : pystr) : exists u v, p = u ++ p ++ v.
Proof. exists [], []. now rewrite app_nil_r. Qed.

Lemma py_inj (a b : string) : py a = py b -> a = b.
Proof.
  unfold py. intros E.
  rewrite <- (string_of_list_ascii_of_string a),
          <- (string_of_list_ascii_of_string b).
  f_equal. revert E.
  generalize (list_ascii_of_string a), (list_ascii_of_string b).
  induction l as [|x l IH]; intros [|y l']; cbn [map]; try discriminate.
  - reflexivity.
  - intros [= Hxy E].
    rewrite <- (ascii_N_embedding x), <- (ascii_N_embedding y), Hxy.
    f_equal. now apply IH.
Qed.

Lemma str_of_nat_inj (i j : nat) : str_of_nat i = str_of_nat j -> i = j.
Proof.
  unfold str_of_nat. intros E. apply py_inj in E.
  assert (E' : Some (Nat.to_uint i) = Some (Nat.to_uint j))
    by (rewrite <- !DecimalString.NilEmpty.usu; now rewrite E).
  injection E' as E'.
  rewrite <- (DecimalNat.Unsigned.of_to i), <- (DecimalNat.Unsigned.of_to j).
  now rewrite E'.
Qed.

Lemma column_label_schema (i : nat) :
  i < 8 -> column_label i = nth i COLS [] /\
           startswith (py "col") (column_label i) = false.
Proof.
  intros Hi. do 8 (destruct i as [|i]; [split; vm_compute; reflexivity|]). lia.
Qed.

Lemma column_label_generic (i : nat) :
  8 <= i -> column_label i = py "col" ++ str_of_nat i.
Proof.
  intros Hi. unfold column_label.
  destruct (i <? List.length COLS) eqn:E; [|reflexivity].
  apply Nat.ltb_lt in E. cbn in E. lia.
Qed.

Lemma column_label_inj (i j : nat) : column_label i = column_label j -> i = j.
Proof.
  intros E. destruct (Nat.lt_ge_cases i 8) as [Hi|Hi],
                     (Nat.lt_ge_cases j 8) as [Hj|Hj].
  - clear -E Hi Hj.
    do 8 (destruct i as [|i];
          [do 8 (destruct j as [|j];
                 [reflexivity || (vm_compute in E; discriminate E)|]); lia|]).
    lia.
  - destruct (column_label_schema i Hi) as [_ Hn].
    rewrite E, (column_label_generic j Hj) in Hn.
    assert (Ht : startswith (py "col") (py "col" ++ str_of_nat j) = true)
      by (apply startswith_spec; now exists (str_of_nat j)).
    congruence.
  - destruct (column_label_schema j Hj) as [_ Hn].
    rewrite <- E, (column_label_generic i Hi) in Hn.
    assert (Ht : startswith (py "col") (py "col" ++ str_of_nat i) = true)
      by (apply startswith_spec; now exists (str_of_nat i)).
    congruence.
  - rewrite (column_label_generic i Hi), (column_label_generic j Hj) in E.
    apply app_inv_head in E. now apply str_of_nat_inj.
Qed.

(** (X14) The prompt of [generate_answer] for a list of rows holds the question
    and, for every value of every row, the value under the label of its
    position: the schema name for the first eight positions, "col" and the
    position beyond; nothing is cut off, and no two positions share a
    label. *)
Theorem answer_prompt_renders_every_value (q : pystr)
    (rows : list (Row Value)) (row : Row Value) (i : nat) (v : Value) :
  In row rows -> nth_error row i = Some v ->
  let prompt := answer_prompt q (readable_context value_str (ContextRows rows)) in
  contains (column_label i ++ py ": " ++ value_str v) prompt = true /\
  contains q prompt = true /\
  (i < 8 -> column_label i = nth i COLS []) /\
  (8 <= i -> column_label i = py "col" ++ str_of_nat i) /\
  (forall j, column_label i = column_label j -> i = j).
Proof.
  intros Hrow Hv prompt. split; [|split; [|split; [|split]]].
  - apply contains_spec. unfold prompt, answer_prompt.
    do 5 apply infix_skip. apply infix_head.
    cbn [readable_context].
    eapply infix_trans; [|apply join_infix, in_map, Hrow].
    apply join_infix. exact (items_from_nth row 0 i v Hv).
  - apply contains_spec. unfold prompt, answer_prompt.
    do 8 apply infix_skip. apply infix_head, infix_refl.
  - intros Hi. now apply column_label_schema.
  - apply column_label_generic.
  - apply column_label_inj.
Qed.

End ClientFacts.

End GeminiFacts.

Lemma answer_prompt_renders_every_value_witness :
  In Sample.asmi Sample.people_info /\
  nth_error Sample.asmi 5 = Some (Sample.CText (py "Acme")) /\
  contains (py "company: Acme")
    (Gemini.answer_prompt (py "where does Asmi work?")
       (Gemini.readable_context Sample.cell_str
          (Gemini.ContextRows Sample.people_info))) = true.
Proof.
  assert (Hrow : In Sample.asmi Sample.people_info) by (left; reflexivity).
  assert (Hv : nth_error Sample.asmi 5 = Some (Sample.CText (py "Acme")))
    by reflexivity.
  split; [exact Hrow|]. split; [exact Hv|].
  exact (proj1 (GeminiFacts.answer_prompt_renders_every_value
                  Sample.cell_str (py "where does Asmi work?")
                  Sample.people_info Sample.asmi 5
                  (Sample.CText (py "Acme")) Hrow Hv)).
Defined.

(** ** The page *)

Section PageFacts.

Context {Value : Type} `{ValueEq Value}.
Variable w : World Value.
Variable none : Value.
Variable dataframe_outcome : list (App.Rowdict (Value := Value)) -> result unit.

Local Abbreviation State := (State Value).
Local Abbreviation M := (M Value).
Local Abbreviation statement :=
  (fun s : State => generated_sql (out s)).

(** *** The statement of the record is never the empty string *)

Lemma kept_then {A X} (f : State -> X) (P : X -> Prop) (m : M A) :
  keeps f m -> forall s, P (f s) -> P (f (snd (m s))).
Proof. intros Hk s Hs. now rewrite Hk. Qed.

Lemma bind_maintains {A B} (P : State -> Prop) (m : M A) (k : A -> M B) :
  (forall s, P s -> P (snd (m s))) ->
  (forall a s, P s -> P (snd (k a s))) ->
  forall s, P s -> P (snd (bind m k s)).
Proof.
  intros Hm Hk s Hs. unfold bind. specialize (Hm s Hs).
  destruct (m s) as [[a|e] s1]; cbn [snd] in *; [now apply Hk | exact Hm].
Qed.

Lemma canned_work_statement (sql q : pystr) (s : State) :
  statement (snd (canned_work w sql q s)) = Some sql.
Proof.
  unfold canned_work.
  assert (Hk : keeps statement
                 (result <- execute_sql w sql ;;
                  modify (with_out (put_sql_result result)) ;;
                  when_rows result (fun rows =>
                    answer <- explain_sql_result w rows q ;;
                    modify (with_out (put_model_answer answer))))).
  { apply keeps_bind; [now apply execute_sql_keeps|]. intros result.
    apply keeps_bind; [now apply keeps_modify|]. intros _.
    destruct result as [rows|msg]; [|apply keeps_ret].
    apply keeps_bind; [now apply keeps_call|]. intros answer.
    now apply keeps_modify. }
  unfold bind at 1. cbn [modify fst snd].
  now rewrite (Hk (with_out (put_generated_sql sql) s)).
Qed.

Lemma routed_work_statement (q : pystr) (s : State) :
  statement s <> Some [] -> statement (snd (routed_work w q s)) <> Some [].
Proof.
  intros Hs. unfold routed_work, route.
  destruct (detect_query_type q).
  - change (generated_work w q)
      with (sql <- generate_sql w q ;; canned_work w sql q).
    unfold bind at 1. unfold generate_sql, call.
    destruct (gemini_sql_text w q) as [text|e]; [|exact Hs].
    destruct (sanitize_shape text) as [t [_ ->]].
    rewrite canned_work_statement. intros [= E].
    now destruct (strip (before SEMI t)).
  - destruct (parse_intent q) as [sql explain|] eqn:Hp.
    + rewrite canned_work_statement. intros [= ->].
      apply parse_intent_literal in Hp as [_ Hp]. discriminate Hp.
    + apply (kept_then statement (fun o => o <> Some [])); [|exact Hs].
      unfold retrieval_work.
      apply keeps_bind; [now apply retrieve_from_db_keeps|].
      intros [|row rows]; [now apply keeps_modify|].
      apply keeps_bind; [now apply keeps_modify|]. intros _.
      apply keeps_bind; [now apply keeps_call|]. intros answer.
      now apply keeps_modify.
Qed.

Lemma run_query_statement (q : pystr) (s : State) :
  generated_sql (fst (run_query w q s)) <> Some [].
Proof.
  unfold run_query, try_except.
  assert (Ht : statement
                 (snd (run_query_try w q (with_out (fun _ => empty_result) s)))
               <> Some []).
  { rewrite run_query_try_shape.
    pose (P := fun s : State => statement s <> Some []).
    assert (Hkept : forall A (m : M A), keeps statement m ->
                      forall s, P s -> P (snd (m s)))
      by (intros A m Hk;
          exact (kept_then statement (fun o => o <> Some []) m Hk)).
    change (P (snd ((get_connection w ;; conn_cursor w ;;
                     routed_work w q ;; cursor_close w ;; conn_close w)
                      (with_out (fun _ => empty_result) s)))).
    apply (bind_maintains P);
      [now apply Hkept, get_connection_keeps| |discriminate].
    intros _.
    apply (bind_maintains P); [now apply Hkept, conn_cursor_keeps|].
    intros _.
    apply (bind_maintains P); [apply routed_work_statement|].
    intros _.
    apply (bind_maintains P); [now apply Hkept, keeps_call|].
    intros _. now apply Hkept, keeps_call. }
  destruct (run_query_try w q (with_out (fun _ => empty_result) s))
    as [[u|e] s']; cbn [fst snd] in *; exact Ht.
Qed.

(** The record of [run_query] is one of the seven fillings, with or
    without [error] added. *)
Lemma run_query_filled (q : pystr) (s : State) :
  exists o, Filled o /\
            (fst (run_query w q s) = o \/
             exists e, fst (run_query w q s) = put_error e o).
Proof.
  unfold run_query, try_except.
  destruct (run_query_try w q (with_out (fun _ => empty_result) s))
    as [r s'] eqn:E.
  destruct (run_query_try_fills w q (with_out (fun _ => empty_result) s)
              _ _ eq_refl E) as [Hfilled _].
  exists (out s'). split; [exact Hfilled|].
  destruct r as [u|e]; cbn [fst snd]; [now left | right; now exists e].
Qed.

(** *** Layout *)

Local Abbreviation render := (App.render none dataframe_outcome).
Local Abbreviation Layout := (App.Layout none dataframe_outcome).

Lemma render_put_error (e : pystr) (o : PipelineResult Value) :
  error o = None ->
  render (put_error e o) =
  match e with
  | [] => render o
  | _ :: _ => [App.ErrorBox (py "Error: " ++ e)]
  end.
Proof.
  intros Ho. unfold App.render. cbn [put_error error]. rewrite Ho.
  now destruct e.
Qed.

Lemma Filled_no_error (o : PipelineResult Value) : Filled o -> error o = None.
Proof. now intros []. Qed.

Lemma answer_widgets_section (a : pystr) :
  match a with
  | [] => []
  | c :: answer => [App.Subheader App.ANSWER_SECTION; App.Write (c :: answer)]
  end = App.answer_widgets (Value := Value) a.
Proof. now destruct a. Qed.

Lemma show_rows_layout (row : Row Value) (rows : list (Row Value))
    (a : pystr) :
  Layout (App.Subheader App.ROWS_SECTION ::
          App.show_rows none dataframe_outcome (row :: rows) ++
          App.answer_widgets a).
Proof.
  unfold App.show_rows.
  destruct (dataframe_outcome (map (App.rowdict none) (row :: rows)))
    as [[]|e] eqn:E.
  - now apply App.layout_table.
  - eapply App.layout_rows. exact E.
Qed.

Lemma render_filled (o : PipelineResult Value) :
  Filled o -> generated_sql o <> Some [] -> Layout (render o).
Proof.
  intros Hf Hsql.
  destruct Hf as [|sql|sql x|sql rows a| |row rows|row rows a];
    unfold App.render, App.statement_section, App.result_section,
           App.rows_section, App.answer_section;
    cbn [put_model_answer put_sql_result put_generated_sql
         put_retrieved_context empty_result error generated_sql sql_result
         retrieved_context model_answer] in *;
    try (destruct sql as [|c sql]; [now elim Hsql|]);
    rewrite ?answer_widgets_section; cbn [app].
  - constructor.
  - now constructor.
  - now constructor.
  - apply (App.layout_explained none dataframe_outcome (sql := c :: sql)).
    discriminate.
  - apply App.layout_answer.
  - rewrite app_nil_r.
    pose proof (show_rows_layout row rows []) as L.
    cbn [App.answer_widgets] in L. now rewrite app_nil_r in L.
  - exact (show_rows_layout row rows a).
Qed.

(** (X15) One run of the page.  When the button was not pressed or the
    input is empty, the page shows its fixed widgets, [run_query] is not
    called and the store is as before.  Otherwise [run_query] is called
    once, and between the spinner and the rule the page shows one of the
    layouts of [Layout]: an error box and nothing else when the run
    raised with a message that is not empty; or else what the record
    holds, where a result is always shown under its statement, rows
    retrieved are never shown beside a statement or a result, and an
    exception whose message is empty shows no error box. *)
Theorem page_layout (q : pystr) (clicked : bool) (s : State) :
  if App.runs q clicked then
    exists body,
      fst (App.page w none dataframe_outcome q clicked s) =
        App.HEAD ++ App.Spinner (py "Running...") :: body ++ App.FOOT /\
      Layout body /\
      snd (App.page w none dataframe_outcome q clicked s) =
        snd (run_query w q s)
  else App.page w none dataframe_outcome q clicked s = (App.HEAD ++ App.FOOT, s).
Proof.
  unfold App.page. destruct (App.runs q clicked); [|reflexivity].
  pose proof (run_query_statement q s) as Hsql.
  destruct (run_query_filled q s) as (o & Hf & Hr).
  destruct (run_query w q s) as [r s']. cbn [fst snd] in *.
  exists (render r). split; [reflexivity|]. split; [|reflexivity].
  destruct Hr as [->|[e ->]]; [now apply render_filled|].
  rewrite (render_put_error e o (Filled_no_error o Hf)).
  destruct e as [|c e]; [now apply render_filled|].
  now apply App.layout_error.
Qed.

(** (X16) The table of the page has the eight columns of [cols] for every
    row, whatever the length of the row: the values are the first eight of
    the row, a shorter row is filled up with [None], and what a row holds
    beyond the eighth position is not shown. *)
Theorem rowdict_eight_columns (r : Row Value) :
  map fst (App.rowdict none r) = App.cols /\
  map snd (App.rowdict none r) = firstn 8 (r ++ repeat none 8) /\
  App.rowdict none (firstn 8 r) = App.rowdict none r.
Proof.
  unfold App.rowdict. cbn [App.cols List.length seq map fst snd].
  split; [reflexivity|].
  split; do 8 (destruct r as [|? r]; [reflexivity|]); reflexivity.
Qed.

End PageFacts.

(** ** What the console shows and what the record holds *)

Section TranscriptFacts.

Context {Value : Type} `{ValueEq Value}.
Variable w : World Value.

Local Abbreviation State := (State Value).
Local Abbreviation M := (M Value).
Local Abbreviation console := (fun s : State => stdout s).
Local Abbreviation record := (fun s : State => out s).

Ltac run_assignment :=
  match goal with
  | |- context [bind (modify ?f) ?k ?s] =>
      change (bind (modify f) k s) with (k tt (f s)); cbv beta
  | |- context [bind (print ?p) ?k ?s] =>
      change (bind (print p) k s) with (k tt (with_printed p s)); cbv beta
  | |- context [modify ?f ?s] => change (modify f s) with (Ok tt, f s)
  | |- context [print ?p ?s] =>
      change (print p s) with (Ok tt, with_printed p s)
  end.

Lemma echo_explained (q : pystr) (result : SqlResult Value) (s1 s2 : State) :
  let s1' := snd (when_rows result (fun rows =>
                    answer <- explain_sql_result w rows q ;;
                    modify (with_out (put_model_answer answer))) s1) in
  let s2' := snd (when_rows result (fun rows =>
                    answer <- explain_sql_result w rows q ;;
                    print (PText ANSWER_HEADER) ;;
                    print (PText answer)) s2) in
  (out s1' = out s1 /\ stdout s2' = stdout s2) \/
  (exists rows a, result = Rows rows /\
                  out s1' = put_model_answer a (out s1) /\
                  stdout s2' = stdout s2 ++ [PText ANSWER_HEADER; PText a]).
Proof.
  cbv zeta. destruct result as [rows|msg]; cbn [when_rows]; [|now left].
  unfold bind, explain_sql_result, call, print, modify. cbn [fst snd].
  destruct (gemini_explanation w rows q) as [a|e]; cbn [fst snd]; [|now left].
  right. exists rows, a. cbn [with_out with_printed out stdout].
  now rewrite <- app_assoc.
Qed.

Lemma echo_canned_work (sql q : pystr) (s1 s2 : State) :
  footprint s1 = footprint s2 -> out s1 = empty_result ->
  stdout (snd (rag_canned_work w sql q s2)) =
  stdout s2 ++ transcript (out (snd (canned_work w sql q s1))).
Proof.
  intros Hf Hout. unfold canned_work, rag_canned_work.
  do 2 run_assignment.
  set (t1 := with_out (put_generated_sql sql) s1).
  set (t2 := with_printed (PText (SQL_HEADER ++ sql)) s2).
  assert (Ht : footprint t1 = footprint t2) by exact Hf.
  destruct (mirrors_execute_sql w sql t1 t2 Ht) as [Hres _].
  pose proof (execute_sql_keeps w record sql (fun _ _ => eq_refl) t1) as Ho.
  pose proof (execute_sql_keeps w console sql (fun _ _ => eq_refl) t2) as Hc.
  destruct (execute_sql w sql t1) as [r1 u1] eqn:E1.
  destruct (execute_sql w sql t2) as [r2 u2] eqn:E2.
  cbn [fst snd] in *. subst r2.
  assert (Ho' : out u1 = put_generated_sql sql empty_result)
    by (rewrite Ho; unfold t1; cbn [with_out out]; now rewrite Hout).
  assert (Hc' : stdout u2 = stdout s2 ++ [PText (SQL_HEADER ++ sql)])
    by (rewrite Hc; reflexivity).
  clearbody t1 t2.
  destruct r1 as [result|e].
  - rewrite (bind_Ok _ _ _ _ _ E1), (bind_Ok _ _ _ _ _ E2).
    do 3 run_assignment.
    destruct (echo_explained q result
                (with_out (put_sql_result result) u1)
                (with_printed (PSqlResult result)
                   (with_printed (PText RESULT_HEADER) u2)))
      as [[E3 E4]|(rows & a & -> & E3 & E4)];
      rewrite E3, E4; cbn [with_out with_printed out stdout];
      rewrite Ho', Hc'; cbn; now rewrite <- ?app_assoc.
  - rewrite (bind_Raise _ _ _ _ _ E1), (bind_Raise _ _ _ _ _ E2).
    cbn [fst snd]. now rewrite Ho', Hc'.
Qed.

Lemma echo_generated_work (q : pystr) (s1 s2 : State) :
  footprint s1 = footprint s2 -> out s1 = empty_result ->
  stdout (snd (rag_generated_work w q s2)) =
  stdout s2 ++ transcript (out (snd (generated_work w q s1))).
Proof.
  intros Hf Hout.
  change (generated_work w q)
    with (sql <- generate_sql w q ;; canned_work w sql q).
  change (rag_generated_work w q)
    with (sql <- generate_sql w q ;; rag_canned_work w sql q).
  destruct (match gemini_sql_text w q with
            | Ok text => sanitize text
            | Raise e => Raise e
            end) as [sql|e] eqn:E.
  - rewrite (bind_Ok (generate_sql w q) _ s1 s1 sql),
            (bind_Ok (generate_sql w q) _ s2 s2 sql);
      try (unfold generate_sql, call; now rewrite E).
    now apply echo_canned_work.
  - rewrite (bind_Raise (generate_sql w q) _ s1 s1 e),
            (bind_Raise (generate_sql w q) _ s2 s2 e);
      try (unfold generate_sql, call; now rewrite E).
    cbn [fst snd]. rewrite Hout. cbn. now rewrite app_nil_r.
Qed.

Lemma echo_retrieval_work (q : pystr) (s1 s2 : State) :
  footprint s1 = footprint s2 -> out s1 = empty_result ->
  stdout (snd (rag_retrieval_work w q s2)) =
  stdout s2 ++ transcript (out (snd (retrieval_work w q s1))).
Proof.
  intros Hf Hout. unfold retrieval_work, rag_retrieval_work.
  destruct (mirrors_retrieve_from_db w q s1 s2 Hf) as [Hres _].
  pose proof (retrieve_from_db_keeps w record q (fun _ _ => eq_refl) s1) as Ho.
  pose proof (retrieve_from_db_keeps w console q (fun _ _ => eq_refl) s2) as Hc.
  destruct (retrieve_from_db w q s1) as [r1 u1] eqn:E1.
  destruct (retrieve_from_db w q s2) as [r2 u2] eqn:E2.
  cbn [fst snd] in *. subst r2. rewrite Hout in Ho.
  destruct r1 as [[|row rows]|e].
  - rewrite (bind_Ok _ _ _ _ _ E1), (bind_Ok _ _ _ _ _ E2).
    do 2 run_assignment. cbn [fst snd with_out with_printed out stdout].
    now rewrite Ho, Hc.
  - rewrite (bind_Ok _ _ _ _ _ E1), (bind_Ok _ _ _ _ _ E2).
    do 3 run_assignment.
    unfold bind, print, modify, generate_answer, call.
    destruct (gemini_answer w q (row :: rows)) as [a|e];
      cbn [fst snd with_out with_printed out stdout];
      rewrite Ho, Hc; cbn; now rewrite <- ?app_assoc.
  - rewrite (bind_Raise _ _ _ _ _ E1), (bind_Raise _ _ _ _ _ E2).
    cbn [fst snd]. rewrite Ho, Hc. cbn. now rewrite app_nil_r.
Qed.

Lemma echo_routed (q : pystr) (s1 s2 : State) :
  footprint s1 = footprint s2 -> out s1 = empty_result ->
  stdout (snd (match route q with
               | ViaCanned sql _ => rag_canned_work w sql q
               | ViaRetrieval => rag_retrieval_work w q
               | ViaGeneratedSql => rag_generated_work w q
               end s2)) =
  stdout s2 ++ transcript (out (snd (routed_work w q s1))).
Proof.
  unfold routed_work. destruct (route q).
  - apply echo_canned_work.
  - apply echo_retrieval_work.
  - apply echo_generated_work.
Qed.

Lemma release_keeps {X} (f : State -> X) :
  (forall s, f (note_cursor_closed s) = f s) ->
  (forall s, f (note_conn_closed s) = f s) ->
  keeps f (cursor_close w ;; conn_close w).
Proof.
  intros H1 H2. apply keeps_bind; [now apply keeps_call|].
  intros _. now apply keeps_call.
Qed.

Lemma framed_field {X} (f : State -> X) (work : M unit) (s : State) :
  (forall s, f (note_conn_opened s) = f s) ->
  (forall s, f (note_cursor_opened s) = f s) ->
  (forall s, f (note_cursor_closed s) = f s) ->
  (forall s, f (note_conn_closed s) = f s) ->
  f (snd ((get_connection w ;; conn_cursor w ;;
           work ;; cursor_close w ;; conn_close w) s)) =
  match get_connection_outcome w, cursor_outcome w with
  | Ok _, Ok _ => f (snd (work (note_cursor_opened (note_conn_opened s))))
  | _, _ => f s
  end.
Proof.
  intros H1 H2 H3 H4.
  destruct (get_connection_spec w s) as [(u & -> & E1)|(e & -> & E1)];
    [rewrite (bind_Ok _ _ _ _ _ E1)
    |now rewrite (bind_Raise _ _ _ _ _ E1)].
  destruct (conn_cursor_spec w (note_conn_opened s))
    as [(u' & -> & E2)|(e & -> & E2)];
    [rewrite (bind_Ok _ _ _ _ _ E2)
    |rewrite (bind_Raise _ _ _ _ _ E2); apply H1].
  unfold bind at 1.
  destruct (work (note_cursor_opened (note_conn_opened s))) as [[[]|e] s1];
    cbn [fst snd]; [|reflexivity].
  exact (release_keeps f H3 H4 s1).
Qed.

Lemma rag_pipeline_shape (q : pystr) :
  rag_pipeline w q =
  (get_connection w ;; conn_cursor w ;;
   match route q with
   | ViaCanned sql _ => rag_canned_work w sql q
   | ViaRetrieval => rag_retrieval_work w q
   | ViaGeneratedSql => rag_generated_work w q
   end ;; cursor_close w ;; conn_close w).
Proof. rewrite rag_pipeline_by_route. now destruct (route q). Qed.

(** (X17) The console of [rag_pipeline] and the record of [run_query] hold
    the same content: from the same store, what [rag_pipeline] prints,
    whether it returns or raises, is the transcript of the record that
    [run_query] returns, error aside. *)
Theorem rag_pipeline_prints_the_record (q : pystr) (s : State) :
  stdout (snd (rag_pipeline w q s)) =
  stdout s ++ transcript (fst (run_query w q s)).
Proof.
  set (s0 := with_out (fun _ => empty_result) s).
  assert (Hrec : transcript (fst (run_query w q s)) =
                 transcript (out (snd (run_query_try w q s0)))).
  { unfold run_query, try_except. fold s0.
    now destruct (run_query_try w q s0) as [[u|e] s']. }
  rewrite Hrec, rag_pipeline_shape, run_query_try_shape.
  rewrite (framed_field console), (framed_field record); try reflexivity.
  destruct (get_connection_outcome w) as [u|e];
    [|cbn; now rewrite app_nil_r].
  destruct (cursor_outcome w) as [u'|e]; [|cbn; now rewrite app_nil_r].
  exact (echo_routed q (note_cursor_opened (note_conn_opened s0))
           (note_cursor_opened (note_conn_opened s)) eq_refl eq_refl).
Qed.

End TranscriptFacts.
